(** * xrmocap: bottom-up multi-view dataset and MediaPipe estimator

    A shallow embedding of
    - [xrmocap/human_perception/keypoints_estimation/mediapipe_estimator.py]
    - [xrmocap/data/dataset/bottom_up_mview_mperson_dataset.py]
    together with the properties their specification states.

    Python floats are IEEE binary64 numbers: they are embedded as Rocq's
    primitive floats.  Python exceptions are embedded in an error monad;
    calls into third-party libraries (OpenCV, MediaPipe, torch image
    pipeline, xrprimer) are section variables about which nothing is
    assumed. *)

From Stdlib Require Import ZArith PrimFloat FloatOps SpecFloat Uint63 Ascii.
From stdpp Require Import gmap strings list pretty.

Set Warnings "-register-all,-clear-no-such-hyp".
Local Open Scope Z_scope.

(** * The Python runtime fragment used by the two files *)

Module Py.

(** Exceptions that the modelled code and the libraries it calls raise. *)
Inductive exn : Type :=
| IndexError
| KeyError
| TypeError
| ValueError
| OverflowError
| StopIteration
| FileNotFoundError
| JSONDecodeError
| RuntimeError
| LibraryError (origin : string).

Inductive result (A : Type) : Type :=
| Ok (a : A)
| Raise (e : exn).
Global Arguments Ok {A} a.
Global Arguments Raise {A} e.

Global Instance result_ret : MRet result := λ A a, Ok a.
Global Instance result_bind : MBind result := λ A B f m,
  match m with
  | Ok a => f a
  | Raise e => Raise e
  end.
Global Instance result_fmap : FMap result := λ A B f m,
  match m with
  | Ok a => Ok (f a)
  | Raise e => Raise e
  end.

(** [l[i]] for a Python list and an int, negative indices counting from
    the end. *)
Definition getitem {A} (l : list A) (i : Z) : result A :=
  let n := Z.of_nat (length l) in
  let j := if i <? 0 then i + n else i in
  if (j <? 0) || (n <=? j) then Raise IndexError
  else match l !! Z.to_nat j with
       | Some x => Ok x
       | None => Raise IndexError
       end.

(** Bounds of the slice [i:j] on a sequence of length [n], as
    [slice.indices] computes them for step 1. *)
Definition clamp (n i : Z) : Z :=
  if i <? 0 then Z.max 0 (i + n) else Z.min i n.

Definition slice_start (n i : Z) : nat := Z.to_nat (clamp n i).
Definition slice_len (n i j : Z) : nat :=
  Z.to_nat (clamp n j - clamp n i).

(** [l[i:j]]. *)
Definition slice {A} (l : list A) (i j : Z) : list A :=
  let n := Z.of_nat (length l) in
  take (slice_len n i j) (drop (slice_start n i) l).

(** [list(range(start, stop, step))]. *)
Definition range (start stop step : Z) : result (list Z) :=
  if step =? 0 then Raise ValueError
  else
    let len :=
      if 0 <? step
      then (if start <? stop then (stop - start - 1) / step + 1 else 0)
      else (if stop <? start then (start - stop - 1) / (- step) + 1 else 0)
    in
    Ok ((λ k : nat, start + Z.of_nat k * step) <$> seq 0 (Z.to_nat len)).

(** [int(x)] for a float: truncation towards zero; NaN and the
    infinities raise. *)
Definition int_of_float (x : float) : result Z :=
  match Prim2SF x with
  | S754_zero _ => Ok 0
  | S754_infinity _ => Raise OverflowError
  | S754_nan => Raise ValueError
  | S754_finite s m e =>
      let a := Z.shiftl (Z.pos m) e in
      Ok (if s then - a else a)
  end.

(** An int used as a float operand.  The ints converted here are array
    dimensions; the conversion is the correctly rounded one below 2^63. *)
Definition float_of_nat (n : nat) : float :=
  PrimFloat.of_uint63 (Uint63.of_Z (Z.of_nat n)).

(** Computations that read and write a state of type [S] and may raise;
    what was written before an exception stays written. *)
Definition io (S A : Type) : Type := S → result A * S.

Global Instance io_ret {S} : MRet (io S) := λ A a s, (Ok a, s).
Global Instance io_bind {S} : MBind (io S) := λ A B f m s,
  match m s with
  | (Ok a, s') => f a s'
  | (Raise e, s') => (Raise e, s')
  end.

Definition lift {S A} (r : result A) : io S A := λ s, (r, s).
Definition get {S} : io S S := λ s, (Ok s, s).
Definition modify {S} (f : S → S) : io S unit := λ s, (Ok tt, f s).

(** [for x in l: body(x)] *)
Fixpoint for_each {S A} (l : list A) (body : A → io S unit) : io S unit :=
  match l with
  | [] => mret tt
  | x :: l => _ ← body x; for_each l body
  end.

Fixpoint ends_with_slash (path : string) : bool :=
  match path with
  | EmptyString => false
  | String c EmptyString => Ascii.eqb c "/"%char
  | String _ path => ends_with_slash path
  end.

(** [os.path.join(a, b)] on a POSIX system. *)
Definition path_join (a b : string) : string :=
  if String.prefix "/" b then b
  else if String.eqb a "" || ends_with_slash a then a +:+ b
  else a +:+ "/" +:+ b.

(** An int used as a float operand. *)
Definition float_of_Z (z : Z) : float :=
  if z <? 0 then PrimFloat.opp (PrimFloat.of_uint63 (Uint63.of_Z (- z)))
  else PrimFloat.of_uint63 (Uint63.of_Z z).

(** A frame condition: every run of [m], returning or raising, relates
    the state before to the state after by [P]. *)
Definition keeps {S A} (P : S → S → Prop) (m : io S A) : Prop :=
  ∀ s r s', m s = (r, s') → P s s'.

End Py.
Import Py.

(** * mediapipe_estimator.py *)

Module Mediapipe.

(** One BGR pixel. *)
Definition pixel : Type := Z * Z * Z.

(** An image: ndarray of shape (height, width, 3), stored row by row.
    The width is kept apart so that an image without rows still has
    one, as [img.shape[1]] does. *)
Record ndimage : Type := NdImage {
  im_width : nat;
  im_rows : list (list pixel)
}.

Definition im_height (img : ndimage) : nat := length (im_rows img).

(** [img_arr[r0:r1, c0:c1]] *)
Definition crop (img_arr : ndimage) (r0 r1 c0 c1 : Z) : ndimage :=
  {| im_width := slice_len (Z.of_nat (im_width img_arr)) c0 c1;
     im_rows := (λ row, slice row c0 c1) <$> slice (im_rows img_arr) r0 r1 |}.

(** A normalized landmark returned by the pose model. *)
Record landmark : Type := Landmark {
  lm_x : float;
  lm_y : float;
  lm_visibility : float
}.

(** [{'bbox': bbox, 'id': idx}] *)
Record bbox_dict : Type := BboxDict {
  bd_bbox : list float;
  bd_id : nat
}.

(** [dict(bbox=bbox, keypoints=kps2d)] *)
Record person_dict : Type := PersonDict {
  pd_bbox : list float;
  pd_keypoints : list (list float)
}.

(** The heatmap type of the estimator interface; this estimator never
    builds one. *)
Definition heatmap : Type := list (list (list float)).

(** The estimator object. *)
Record MediapipeEstimator : Type := Estimator {
  pose_model : ndimage → result (option (list landmark));
  bbox_thr : float;
  convention : string
}.

(** [__init__], with [pose] the [process] method of the model that
    [mp_pose.Pose] builds from [mediapipe_kwargs]. *)
Definition __init__ (pose : ndimage → result (option (list landmark)))
    (bbox_thr : float) : MediapipeEstimator :=
  {| pose_model := pose; bbox_thr := bbox_thr;
     convention := "mediapipe_body" |}.

Definition get_keypoints_convention_name (self : MediapipeEstimator)
  : string := convention self.

(** ** numpy assignment into a slot of a zero array *)

(** Broadcasting a sequence to length [n]: equal length, or length one. *)
Definition broadcast_to {A} (n : nat) (v : list A) : result (list A) :=
  if (length v =? n)%nat then Ok v
  else match v with
       | [x] => Ok (replicate n x)
       | _ => Raise ValueError
       end.

(** [a[idx] = v] for [a] of shape (len a, width). *)
Definition setitem_vec (width : nat) (a : list (list float)) (idx : nat)
    (v : list float) : result (list (list float)) :=
  if (idx <? length a)%nat then
    row ← broadcast_to width v;
    Ok (<[idx := row]> a)
  else Raise IndexError.

(** [a[idx] = v] for [a] of shape (len a, n, width) and [v] the array
    made from a list of rows; the empty list makes an array of shape
    (0,), which does not broadcast. *)
Definition setitem_mat (n width : nat) (a : list (list (list float)))
    (idx : nat) (v : list (list float))
  : result (list (list (list float))) :=
  if (idx <? length a)%nat then
    match v with
    | [] => Raise ValueError
    | _ =>
        rows ← mapM (broadcast_to width) v;
        mat ← broadcast_to n rows;
        Ok (<[idx := mat]> a)
    end
  else Raise IndexError.

Definition zeros2 (n m : nat) : list (list float) :=
  replicate n (replicate m 0%float).
Definition zeros3 (n m k : nat) : list (list (list float)) :=
  replicate n (zeros2 m k).

Section Estimator.

(** [cv2.cvtColor(img, cv2.COLOR_BGR2RGB)] *)
Variable cvtColor_BGR2RGB : ndimage → result ndimage.
(** [cv2.imread]: [None] when the file cannot be read. *)
Variable imread : string → option ndimage.
(** [xrprimer.utils.ffmpeg_utils.video_to_array] *)
Variable video_to_array : string → result (list ndimage).
(** [get_keypoint_num] of the keypoints convention tables. *)
Variable get_keypoint_num : string → nat.

(** The body of the loop of [infer_single_img]: the value of [kps2d]
    paired with its bbox when it is not [None]. *)
Definition infer_single_img_body (self : MediapipeEstimator)
    (img_arr : option ndimage) (bbox_dict : bbox_dict)
  : result (option person_dict) :=
  let bbox := bd_bbox bbox_dict in
  score ← getitem bbox 4;
  if PrimFloat.ltb (bbox_thr self) score then
    r0 ← getitem bbox 1 ≫= int_of_float;
    r1 ← getitem bbox 3 ≫= int_of_float;
    c0 ← getitem bbox 0 ≫= int_of_float;
    c1 ← getitem bbox 2 ≫= int_of_float;
    img ← match img_arr with
          | Some a => Ok (crop a r0 r1 c0 c1)
          | None => Raise TypeError
          end;
    rgb ← cvtColor_BGR2RGB img;
    result_mp ← pose_model self rgb;
    match result_mp with
    | Some pose_landmarks =>
        kps_list ← mapM (λ landmark,
          b0 ← getitem bbox 0;
          b1 ← getitem bbox 1;
          Ok [ (lm_x landmark * float_of_nat (im_width img) + b0)%float;
               (lm_y landmark * float_of_nat (im_height img) + b1)%float;
               lm_visibility landmark ]) pose_landmarks;
        Ok (Some {| pd_bbox := bbox; pd_keypoints := kps_list |})
    | None => Ok None
    end
  else Ok None.

Fixpoint infer_single_img_loop (self : MediapipeEstimator)
    (img_arr : option ndimage) (bbox_list : list bbox_dict)
    (multi_kps2d : list person_dict) : result (list person_dict) :=
  match bbox_list with
  | [] => Ok multi_kps2d
  | bbox_dict :: bbox_list =>
      person ← infer_single_img_body self img_arr bbox_dict;
      infer_single_img_loop self img_arr bbox_list
        (match person with
         | Some person_dict => multi_kps2d ++ [person_dict]
         | None => multi_kps2d
         end)
  end.

Definition infer_single_img (self : MediapipeEstimator)
    (img_arr : option ndimage) (bbox_list : list bbox_dict)
  : result (list person_dict) :=
  infer_single_img_loop self img_arr bbox_list [].

(** The [enumerate] loop of [infer_array] that keeps the bboxes of
    positive score. *)
Fixpoint select_bboxes (bboxes : list (list float)) (idx : nat)
    (bboxes_in_frame : list bbox_dict) : result (list bbox_dict) :=
  match bboxes with
  | [] => Ok bboxes_in_frame
  | bbox :: bboxes =>
      score ← getitem bbox 4;
      select_bboxes bboxes (S idx)
        (if PrimFloat.ltb 0%float score
         then bboxes_in_frame ++ [ {| bd_bbox := bbox; bd_id := idx |} ]
         else bboxes_in_frame)
  end.

(** The [enumerate(pose_results)] loop of [infer_array]. *)
Fixpoint fill_results (n_kps : nat) (pose_results : list person_dict)
    (idx : nat) (frame_kps_results : list (list (list float)))
    (frame_bbox_results : list (list float))
  : result (list (list (list float)) * list (list float)) :=
  match pose_results with
  | [] => Ok (frame_kps_results, frame_bbox_results)
  | person_dict :: pose_results =>
      let bbox := pd_bbox person_dict in
      let keypoints := pd_keypoints person_dict in
      frame_bbox_results ← setitem_vec 5 frame_bbox_results idx bbox;
      frame_kps_results ←
        setitem_mat n_kps 3 frame_kps_results idx keypoints;
      fill_results n_kps pose_results (S idx)
        frame_kps_results frame_bbox_results
  end.

(** The body of the frame loop of [infer_array]. *)
Definition infer_array_frame (self : MediapipeEstimator) (n_kps : nat)
    (img_arr : option ndimage) (bboxes : list (list float))
  : result (list (list (list float)) * list (list float)) :=
  bboxes_in_frame ← select_bboxes bboxes 0 [];
  if (0 <? length bboxes_in_frame)%nat then
    pose_results ← infer_single_img self img_arr bboxes_in_frame;
    fill_results n_kps pose_results 0
      (zeros3 (length bboxes) n_kps 3) (zeros2 (length bboxes) 5)
  else Ok ([], []).

Fixpoint infer_array_loop (self : MediapipeEstimator) (n_kps : nat)
    (image_array : list (option ndimage))
    (bbox_list : list (list (list float))) (frame_index : nat)
    (ret_kps_list : list (list (list (list float))))
    (ret_bbox_list : list (list (list float)))
  : result (list (list (list (list float))) * list (list (list float))) :=
  match image_array with
  | [] => Ok (ret_kps_list, ret_bbox_list)
  | img_arr :: image_array =>
      bboxes ← getitem bbox_list (Z.of_nat frame_index);
      '(frame_kps_results, frame_bbox_results) ←
        infer_array_frame self n_kps img_arr bboxes;
      infer_array_loop self n_kps image_array bbox_list (S frame_index)
        (ret_kps_list ++ [frame_kps_results])
        (ret_bbox_list ++ [frame_bbox_results])
  end.

Definition infer_array (self : MediapipeEstimator)
    (image_array : list (option ndimage))
    (bbox_list : list (list (list float)))
    (disable_tqdm return_heatmap : bool)
  : result (list (list (list (list float))) * option heatmap
            * list (list (list float))) :=
  let n_kps := get_keypoint_num (get_keypoints_convention_name self) in
  '(ret_kps_list, ret_bbox_list) ←
    infer_array_loop self n_kps image_array bbox_list 0 [] [];
  Ok (ret_kps_list, None, ret_bbox_list).

(** The chunk loop of [infer_frames]; the log line it writes is not
    part of the result. *)
Fixpoint infer_frames_loop (self : MediapipeEstimator)
    (frame_path_list : list string)
    (bbox_list : list (list (list float)))
    (disable_tqdm : bool) (load_batch_size : Z) (starts : list Z)
    (ret_kps_list : list (list (list (list float))))
    (ret_boox_list : list (list (list float)))
  : result (list (list (list (list float))) * list (list (list float))) :=
  match starts with
  | [] => Ok (ret_kps_list, ret_boox_list)
  | start_idx :: starts =>
      let end_idx :=
        Z.min (Z.of_nat (length frame_path_list))
              (start_idx + load_batch_size) in
      let image_array_list :=
        imread <$> slice frame_path_list start_idx end_idx in
      '(batch_pose_list, _, batch_boox_list) ←
        infer_array self image_array_list
          (slice bbox_list start_idx end_idx) disable_tqdm false;
      infer_frames_loop self frame_path_list bbox_list disable_tqdm
        load_batch_size starts
        (ret_kps_list ++ batch_pose_list)
        (ret_boox_list ++ batch_boox_list)
  end.

Definition infer_frames (self : MediapipeEstimator)
    (frame_path_list : list string)
    (bbox_list : list (list (list float)))
    (disable_tqdm return_heatmap : bool) (load_batch_size : option Z)
  : result (list (list (list (list float))) * option heatmap
            * list (list (list float))) :=
  let load_batch_size :=
    match load_batch_size with
    | None => Z.of_nat (length frame_path_list)
    | Some b => b
    end in
  starts ← range 0 (Z.of_nat (length frame_path_list)) load_batch_size;
  '(ret_kps_list, ret_boox_list) ←
    infer_frames_loop self frame_path_list bbox_list disable_tqdm
      load_batch_size starts [] [];
  Ok (ret_kps_list, None, ret_boox_list).

Definition infer_video (self : MediapipeEstimator) (video_path : string)
    (bbox_list : list (list (list float)))
    (disable_tqdm return_heatmap : bool)
  : result (list (list (list (list float))) * option heatmap
            * list (list (list float))) :=
  image_array ← video_to_array video_path;
  '(ret_kps_list, _, ret_boox_list) ←
    infer_array self (Some <$> image_array) bbox_list disable_tqdm false;
  Ok (ret_kps_list, None, ret_boox_list).

(** ** What the specification says of each bbox *)

(** The entry a bbox adds to the result of [infer_single_img]: none when
    its score does not exceed the threshold or the pose model finds no
    landmarks in the crop; otherwise its landmarks, scaled by the shape of
    the crop and shifted by the corner of the bbox. *)
Definition contributes (self : MediapipeEstimator)
    (img_arr : option ndimage) (bbox_dict : bbox_dict)
    (entry : option person_dict) : Prop :=
  let bbox := bd_bbox bbox_dict in
  ∃ score, bbox !! 4%nat = Some score ∧
    if PrimFloat.ltb (bbox_thr self) score then
      ∃ x0 y0 x1 y1 a r0 r1 c0 c1 rgb result_mp,
        bbox !! 0%nat = Some x0 ∧ bbox !! 1%nat = Some y0 ∧
        bbox !! 2%nat = Some x1 ∧ bbox !! 3%nat = Some y1 ∧
        img_arr = Some a ∧
        int_of_float y0 = Ok r0 ∧ int_of_float y1 = Ok r1 ∧
        int_of_float x0 = Ok c0 ∧ int_of_float x1 = Ok c1 ∧
        let img := crop a r0 r1 c0 c1 in
        cvtColor_BGR2RGB img = Ok rgb ∧
        pose_model self rgb = Ok result_mp ∧
        entry =
          (λ pose_landmarks,
             {| pd_bbox := bbox;
                pd_keypoints :=
                  (λ landmark,
                     [ (lm_x landmark * float_of_nat (im_width img)
                        + x0)%float;
                       (lm_y landmark * float_of_nat (im_height img)
                        + y0)%float;
                       lm_visibility landmark ]) <$> pose_landmarks |})
          <$> result_mp
    else entry = None.

(** A bbox passes the score filter of [infer_array]: [bbox[4] > 0.0]. *)
Definition score_positive (bbox : list float) : bool :=
  match bbox !! 4%nat with
  | Some score => PrimFloat.ltb 0%float score
  | None => false
  end.

(** At least one bbox of the frame has a positive score. *)
Definition has_positive_score (bboxes : list (list float)) : bool :=
  existsb score_positive bboxes.

(** The keypoints of one person: shape (n_kps, 3). *)
Definition person_shape (n_kps : nat) (person : list (list float)) : Prop :=
  length person = n_kps ∧ Forall (λ kp, length kp = 3%nat) person.

(** A bbox as the docstrings of the estimator describe it, on a given
    image: four corner coordinates that [int] accepts and that cut a
    crop with at least one pixel, and a score. *)
Definition bbox_well_formed (img_arr : ndimage) (bbox : list float) : Prop :=
  ∃ x0 y0 x1 y1 score r0 r1 c0 c1,
    bbox = [x0; y0; x1; y1; score]
    ∧ int_of_float y0 = Ok r0 ∧ int_of_float y1 = Ok r1
    ∧ int_of_float x0 = Ok c0 ∧ int_of_float x1 = Ok c1
    ∧ (0 < im_width (crop img_arr r0 r1 c0 c1))%nat
    ∧ (0 < im_height (crop img_arr r0 r1 c0 c1))%nat.

(** On an image with at least one pixel the colour conversion and the pose
    model do not raise, and the model, when it finds a person, returns
    [n_kps] landmarks. *)
Definition pose_model_total (self : MediapipeEstimator) (n_kps : nat)
  : Prop :=
  ∀ img, (0 < im_width img)%nat → (0 < im_height img)%nat →
    ∃ rgb result_mp,
      cvtColor_BGR2RGB img = Ok rgb
      ∧ pose_model self rgb = Ok result_mp
      ∧ ∀ pose_landmarks, result_mp = Some pose_landmarks →
                          length pose_landmarks = n_kps.

(** An entry of [pose_results] that fits a slot of the result arrays. *)
Definition person_fits (n_kps : nat) (person : person_dict) : Prop :=
  length (pd_bbox person) = 5%nat ∧ person_shape n_kps (pd_keypoints person).

End Estimator.

End Mediapipe.

(** * bottom_up_mview_mperson_dataset.py *)

Module Dataset.

(** ** Values *)

(** A torch tensor or numpy array of floats: its shape and its entries in
    row-major order. *)
Record tensor : Type := Tensor {
  shape : list nat;
  data : list float
}.

(** The nested lists of floats that the camera getters return. *)
Inductive nested : Type :=
| Num (x : float)
| Nest (l : list nested).

(** [torch.stack(ts)] *)
Definition torch_stack (ts : list tensor) : result tensor :=
  match ts with
  | [] => Raise RuntimeError
  | t :: _ =>
      if forallb (λ t', bool_decide (shape t' = shape t)) ts
      then Ok {| shape := length ts :: shape t;
                 data := concat (data <$> ts) |}
      else Raise RuntimeError
  end.

(** [torch.tensor(v)]: the shape, and the entries as the floats given
    (torch rounds them to float32; the properties below are about
    shapes). *)
Fixpoint torch_tensor (v : nested) : result tensor :=
  match v with
  | Num x => Ok {| shape := []; data := [x] |}
  | Nest l =>
      ts ← (fix go (l : list nested) : result (list tensor) :=
              match l with
              | [] => Ok []
              | v :: l => t ← torch_tensor v; ts ← go l; Ok (t :: ts)
              end) l;
      match ts with
      | [] => Ok {| shape := [0%nat]; data := [] |}
      | t :: _ =>
          if forallb (λ t', bool_decide (shape t' = shape t)) ts
          then Ok {| shape := length ts :: shape t;
                     data := concat (data <$> ts) |}
          else Raise ValueError
      end
  end.

(** The camera parameter objects of the camera library: the getters and
    the image size used by the dataset. *)
Record FisheyeCameraParameter : Type := Camera {
  get_intrinsic : Z → result nested;
  get_extrinsic_r : nested;
  get_extrinsic_t : nested;
  width : Z;
  height : Z
}.

(** A numpy array of rank one or two with float64 entries, the arrays
    that [np.array] makes of the lists of a JSON file. *)
Inductive ndarray : Type :=
| Arr1 (v : list float)
| Arr2 (ncols : nat) (rows : list (list float)).

Definition nd_len (a : ndarray) : nat :=
  match a with
  | Arr1 v => length v
  | Arr2 _ rows => length rows
  end.

Definition nd_shape (a : ndarray) : list nat :=
  match a with
  | Arr1 v => [length v]
  | Arr2 ncols rows => [length rows; ncols]
  end.

(** [a[:, j] = a[:, j] * k], with the product taken in float64, the
    dtype of the arrays above. *)
Definition scale_column (j : nat) (k : float) (a : ndarray)
  : result ndarray :=
  match a with
  | Arr1 _ => Raise IndexError
  | Arr2 ncols rows =>
      if (j <? ncols)%nat
      then Ok (Arr2 ncols (alter (λ x, (x * k)%float) j <$> rows))
      else Raise IndexError
  end.

(** A detection record: per joint the array of candidates, and the part
    affinity arrays.  Arrays are objects that are updated in place: a
    record holds their addresses in the store. *)
Record detection : Type := Detection {
  joints : list nat;
  pafs : list nat
}.

(** Parsed JSON. *)
Inductive json : Type :=
| JNull
| JBool (b : bool)
| JNum (x : float)
| JStr (s : string)
| JArr (l : list json)
| JObj (m : list (string * json)).

Fixpoint dict_get (m : list (string * json)) (key : string) : option json :=
  match m with
  | [] => None
  | (k, v) :: m => if String.eqb k key then Some v else dict_get m key
  end.

(** [j[key]] for a string key. *)
Definition json_getitem_str (j : json) (key : string) : result json :=
  match j with
  | JObj m =>
      match dict_get m key with
      | Some v => Ok v
      | None => Raise KeyError
      end
  | _ => Raise TypeError
  end.

(** [len(j)] *)
Definition json_len (j : json) : result nat :=
  match j with
  | JArr l => Ok (length l)
  | JObj m => Ok (length m)
  | JStr s => Ok (String.length s)
  | _ => Raise TypeError
  end.

(** [j[i]] for an int. *)
Definition json_getitem_int (j : json) (i : Z) : result json :=
  match j with
  | JArr l => getitem l i
  | JStr s =>
      (λ c, JStr (String c EmptyString))
      <$> getitem (String.list_ascii_of_string s) i
  | JObj _ => Raise KeyError
  | _ => Raise TypeError
  end.

(** ** The dataset object and the world it lives in *)

Record dataset : Type := DatasetObj {
  data_root : string;
  meta_path : string;
  shuffled : bool;
  kps2d_convention : string;
  cam_k_dim : Z;
  n_scene : nat;
  image_list : list (list (list string));
  fisheye_params : list (list FisheyeCameraParameter);
  gt3d : list (list tensor);
  percep_keypoints2d : option (list (list (list detection)));
  n_views : option nat
}.

Definition set_n_views (n : nat) (self : dataset) : dataset :=
  {| data_root := data_root self; meta_path := meta_path self;
     shuffled := shuffled self; kps2d_convention := kps2d_convention self;
     cam_k_dim := cam_k_dim self; n_scene := n_scene self;
     image_list := image_list self; fisheye_params := fisheye_params self;
     gt3d := gt3d self; percep_keypoints2d := percep_keypoints2d self;
     n_views := Some n |}.

Definition set_percep_keypoints2d (p : list (list (list detection)))
    (self : dataset) : dataset :=
  {| data_root := data_root self; meta_path := meta_path self;
     shuffled := shuffled self; kps2d_convention := kps2d_convention self;
     cam_k_dim := cam_k_dim self; n_scene := n_scene self;
     image_list := image_list self; fisheye_params := fisheye_params self;
     gt3d := gt3d self; percep_keypoints2d := Some p;
     n_views := n_views self |}.

(** The dataset object, the store of arrays, and the files opened so far. *)
Record world : Type := World {
  self_ : dataset;
  heap : gmap nat ndarray;
  opened : list string
}.

Definition with_self (f : dataset → dataset) (w : world) : world :=
  {| self_ := f (self_ w); heap := heap w; opened := opened w |}.
Definition with_heap (h : gmap nat ndarray) (w : world) : world :=
  {| self_ := self_ w; heap := h; opened := opened w |}.
Definition with_opened (path : string) (w : world) : world :=
  {| self_ := self_ w; heap := heap w; opened := opened w ++ [path] |}.

(** The tuple that [__getitem__] returns. *)
Record item : Type := Item {
  mview_img_tensor : tensor;
  k_tensor : tensor;
  r_tensor : tensor;
  t_tensor : tensor;
  kps3d : tensor;
  end_of_clip : bool;
  kw_data : list detection
}.

Section Dataset.

(** [MviewMpersonDataset.__len__] *)
Variable len : dataset → Z.
(** [MviewMpersonDataset.process_index_mapping] *)
Variable process_index_mapping : dataset → Z → result (Z * Z * bool).
(** The image pipeline given to the constructor. *)
Variable img_pipeline : string → result tensor.
(** [convert_bottom_up_kps_paf(detections, src, dst, approximate)]: it
    builds its arrays in the store. *)
Variable convert_bottom_up_kps_paf :
  json → json → string → bool → io (gmap nat ndarray) (list detection).
(** The file system: the content of each file that exists. *)
Variable fs : gmap string string.
(** [json.load] on the content of a file. *)
Variable json_load : string → result json.

(** The camera loop of [__getitem__]. *)
Fixpoint camera_loop (self : dataset) (cams : list FisheyeCameraParameter)
    (k_list r_list t_list : list tensor)
  : result (list tensor * list tensor * list tensor) :=
  match cams with
  | [] => Ok (k_list, r_list, t_list)
  | fisheye_param :: cams =>
      k ← get_intrinsic fisheye_param (cam_k_dim self) ≫= torch_tensor;
      r ← torch_tensor (get_extrinsic_r fisheye_param);
      t ← torch_tensor (get_extrinsic_t fisheye_param);
      camera_loop self cams (k_list ++ [k]) (r_list ++ [r]) (t_list ++ [t])
  end.

Definition __getitem__ (self : dataset) (index : Z) : result item :=
  if len self <=? index then Raise StopIteration
  else
    '(scene_idx, frame_idx, end_of_clip) ← process_index_mapping self index;
    img_paths ← getitem (image_list self) scene_idx
                ≫= (λ scene, getitem scene frame_idx);
    mview_img_list ←
      mapM (λ rela_path, img_pipeline (path_join (data_root self) rela_path))
           img_paths;
    mview_img_tensor ← torch_stack mview_img_list;
    cams ← getitem (fisheye_params self) scene_idx;
    '(k_list, r_list, t_list) ← camera_loop self cams [] [] [];
    k_tensor ← torch_stack k_list;
    r_tensor ← torch_stack r_list;
    t_tensor ← torch_stack t_list;
    keypoints3d ← getitem (gt3d self) scene_idx;
    kps3d ← getitem keypoints3d frame_idx;
    let end_of_clip := end_of_clip && negb (shuffled self) in
    mview_keypoints2d_list ←
      match percep_keypoints2d self with
      | Some p => getitem p scene_idx
      | None => Raise TypeError
      end;
    n_view ← getitem (shape mview_img_tensor) 0;
    mview_kps2d_list ←
      mapM (λ view_idx : nat,
              getitem mview_keypoints2d_list (Z.of_nat view_idx)
              ≫= (λ view, getitem view frame_idx))
           (seq 0 n_view);
    let kw_data := mview_kps2d_list in
    Ok {| mview_img_tensor := mview_img_tensor; k_tensor := k_tensor;
          r_tensor := r_tensor; t_tensor := t_tensor; kps3d := kps3d;
          end_of_clip := end_of_clip; kw_data := kw_data |}.

(** The two assignments under [#resize] for one joint array.  A Python
    object always exists; an address outside of the store stops the
    model. *)
Definition resize_joint (img_size : Z * Z) (joint : nat)
  : io (gmap nat ndarray) unit :=
  h ← get;
  a ← lift (match h !! joint with
            | Some a => Ok a
            | None => Raise RuntimeError
            end);
  if (0 <? nd_len a)%nat then
    a0 ← lift (scale_column 0 (float_of_Z (img_size.1 - 1)) a);
    _ ← modify <[joint := a0]>;
    a1 ← lift (scale_column 1 (float_of_Z (img_size.2 - 1)) a0);
    modify <[joint := a1]>
  else mret tt.

(** The [#resize] loops over the frames and joints of one view. *)
Definition resize (img_size : Z * Z) (n_frame : nat)
    (convert_detections : list detection) : io (gmap nat ndarray) unit :=
  for_each (seq 0 n_frame) (λ frame_id,
    detection ← lift (getitem convert_detections (Z.of_nat frame_id));
    for_each (seq 0 (length (joints detection))) (λ joint_id,
      joint ← lift (getitem (joints detection) (Z.of_nat joint_id));
      resize_joint img_size joint)).

(** Runs a computation on the store inside the world. *)
Definition on_heap {A} (m : io (gmap nat ndarray) A) : io world A :=
  λ w, let '(r, h) := m (heap w) in (r, with_heap h w).

(** [os.path.join(self.meta_path, f'scene_{scene_idx}', "kps2d_paf.json")] *)
Definition scene_file (meta_path : string) (scene_idx : nat) : string :=
  path_join (path_join meta_path ("scene_" +:+ pretty scene_idx))
            "kps2d_paf.json".

(** [open(file_name, 'r')] followed by [json.load(f)]; the log keeps the
    files opened, [f.close()] is not traced. *)
Definition open_and_load (file_name : string) : io world json :=
  content ← (λ w, match fs !! file_name with
                  | Some content => (Ok content, with_opened file_name w)
                  | None => (Raise FileNotFoundError, w)
                  end);
  lift (json_load content).

(** The body of the view loop of [load_perception_2d]. *)
Definition load_view (scene_idx : nat) (src_convention multi_detections : json)
    (view_idx : nat) : io world (list detection) :=
  w ← get;
  let self := self_ w in
  cam_w ← lift (getitem (fisheye_params self) (Z.of_nat scene_idx)
                ≫= (λ cams, getitem cams (Z.of_nat view_idx)));
  cam_h ← lift (getitem (fisheye_params self) (Z.of_nat scene_idx)
                ≫= (λ cams, getitem cams (Z.of_nat view_idx)));
  let img_size := (width cam_w, height cam_h) in
  detections ← lift (json_getitem_int multi_detections (Z.of_nat view_idx));
  convert_detections ←
    on_heap (convert_bottom_up_kps_paf detections src_convention
               (kps2d_convention self) true);
  n_frame ← lift (json_len detections);
  _ ← on_heap (resize img_size n_frame convert_detections);
  mret convert_detections.

Fixpoint view_loop (scene_idx : nat) (src_convention multi_detections : json)
    (views : list nat) (mview_kps2d : list (list detection))
  : io world (list (list detection)) :=
  match views with
  | [] => mret mview_kps2d
  | view_idx :: views =>
      convert_detections ←
        load_view scene_idx src_convention multi_detections view_idx;
      view_loop scene_idx src_convention multi_detections views
        (mview_kps2d ++ [convert_detections])
  end.

(** The body of the scene loop of [load_perception_2d]. *)
Definition load_scene (scene_idx : nat) : io world (list (list detection)) :=
  w ← get;
  json_data ← open_and_load (scene_file (meta_path (self_ w)) scene_idx);
  src_convention ← lift (json_getitem_str json_data "convention");
  multi_detections ← lift (json_getitem_str json_data "data");
  n ← lift (json_len multi_detections);
  _ ← modify (with_self (set_n_views n));
  view_loop scene_idx src_convention multi_detections (seq 0 n) [].

Fixpoint scene_loop (scenes : list nat)
    (mscene_keypoints_list : list (list (list detection)))
  : io world (list (list (list detection))) :=
  match scenes with
  | [] => mret mscene_keypoints_list
  | scene_idx :: scenes =>
      mview_kps2d ← load_scene scene_idx;
      scene_loop scenes (mscene_keypoints_list ++ [mview_kps2d])
  end.

Definition load_perception_2d : io world unit :=
  w ← get;
  mscene_keypoints_list ← scene_loop (seq 0 (n_scene (self_ w))) [];
  modify (with_self (set_percep_keypoints2d mscene_keypoints_list)).

(** ** What the specification says of the resize step *)

(** Column 0 times [kx], column 1 times [ky], the other columns as they
    are. *)
Definition scale_row (kx ky : float) (row : list float) : list float :=
  match row with
  | x :: y :: others => (x * kx)%float :: (y * ky)%float :: others
  | [x] => [(x * kx)%float]
  | [] => []
  end.

Definition scaled_xy (kx ky : float) (a : ndarray) : ndarray :=
  match a with
  | Arr1 v => Arr1 v
  | Arr2 ncols rows => Arr2 ncols (scale_row kx ky <$> rows)
  end.

(** The joint arrays that the resize step visits, in the order of the
    visits. *)
Definition joint_refs (n_frame : nat) (convert_detections : list detection)
  : list nat :=
  concat (joints <$> take n_frame convert_detections).

(** The dataset object without its [n_views] attribute. *)
Definition forget_n_views (self : dataset) : dataset :=
  {| data_root := data_root self; meta_path := meta_path self;
     shuffled := shuffled self; kps2d_convention := kps2d_convention self;
     cam_k_dim := cam_k_dim self; n_scene := n_scene self;
     image_list := image_list self; fisheye_params := fisheye_params self;
     gt3d := gt3d self; percep_keypoints2d := percep_keypoints2d self;
     n_views := None |}.

(** Two results of [json.load] show the same under the keys 'convention'
    and 'data'. *)
Definition keys_agree (r r' : result json) : Prop :=
  match r, r' with
  | Ok (JObj m), Ok (JObj m') =>
      dict_get m "convention" = dict_get m' "convention"
      ∧ dict_get m "data" = dict_get m' "data"
  | _, _ => r = r'
  end.

End Dataset.

End Dataset.

(** * A small estimator and input to run the model on *)

Module Fixture.
Import Mediapipe.

(** A 4 x 6 image of black pixels. *)
Definition image : ndimage :=
  {| im_width := 6; im_rows := replicate 4 (replicate 6 (0, 0, 0)) |}.

(** Channel swap; OpenCV refuses an empty image. *)
Definition cvtColor (img : ndimage) : result ndimage :=
  if (im_width img =? 0)%nat || (im_height img =? 0)%nat
  then Raise (LibraryError "cv2.error")
  else Ok {| im_width := im_width img;
             im_rows :=
               (λ row : list pixel,
                  (λ px : pixel, (px.2, px.1.2, px.1.1)) <$> row)
               <$> im_rows img |}.

(** A pose model that sees a person in crops at least three rows high. *)
Definition pose (img : ndimage) : result (option (list landmark)) :=
  if (im_height img <? 3)%nat then Ok None
  else Ok (Some (replicate 33
                   {| lm_x := 0.5; lm_y := 0.25; lm_visibility := 1 |})).

Definition keypoint_num (convention : string) : nat :=
  if String.eqb convention "mediapipe_body" then 33%nat else 0%nat.

Definition imread (path : string) : option ndimage :=
  if String.eqb path "missing.png" then None else Some image.

Definition video_to_array (path : string) : result (list ndimage) :=
  if String.eqb path "clip.mp4" then Ok [image; image]
  else Raise FileNotFoundError.

Definition estimator : MediapipeEstimator := __init__ pose 0.5%float.

(** Two frames: the first with a tall bbox, a flat bbox and one of score
    zero; the second with a single bbox of score zero. *)
Definition bboxes : list (list (list float)) :=
  [ [ [1; 0; 5; 4; 0.75]; [0; 1; 6; 2; 0.75]; [0; 0; 6; 4; 0] ];
    [ [0; 0; 6; 4; 0] ] ]%float.

Definition frames : list (option ndimage) := [Some image; Some image].

Definition inferred
  : list (list (list (list float))) * option heatmap
    * list (list (list float)) :=
  Eval vm_compute in
    match infer_array cvtColor keypoint_num estimator frames bboxes
            false false with
    | Ok r => r
    | Raise _ => ([], None, [])
    end.

(** ** A dataset of one scene, two views and two frames *)

Import Dataset.

Definition identity3 : nested :=
  Nest [ Nest [Num 1; Num 0; Num 0]; Nest [Num 0; Num 1; Num 0];
         Nest [Num 0; Num 0; Num 1] ]%float.

Definition camera : FisheyeCameraParameter :=
  {| get_intrinsic := λ k_dim, Ok identity3;
     get_extrinsic_r := identity3;
     get_extrinsic_t := Nest [Num 0; Num 0; Num 1]%float;
     width := 641; height := 481 |}.

Definition dataset_len (self : dataset) : Z := 2.

Definition index_mapping (self : dataset) (index : Z)
  : result (Z * Z * bool) :=
  if (0 <=? index) && (index <? 2) then Ok (0, index, index =? 1)
  else Raise IndexError.

Definition pipeline (path : string) : result tensor :=
  Ok {| shape := [1; 1; 3]%nat; data := [0; 0; 0]%float |}.

(** Allocation of an array at a fresh address of the store. *)
Definition alloc (a : ndarray) : io (gmap nat ndarray) nat :=
  λ h, (Ok (size h), <[size h := a]> h).

Definition json_number (j : json) : result float :=
  match j with
  | JNum x => Ok x
  | _ => Raise TypeError
  end.

(** [np.array] of a JSON list of rows. *)
Definition json_array (j : json) : result ndarray :=
  match j with
  | JArr [] => Ok (Arr1 [])
  | JArr (JArr first :: rows) =>
      rows ← mapM (λ row, match row with
                          | JArr xs => mapM json_number xs
                          | _ => Raise ValueError
                          end) (JArr first :: rows);
      Ok (Arr2 (length first) rows)
  | _ => Raise ValueError
  end.

(** A converter between two conventions with the same joints: it builds
    one new array per joint and per part affinity field. *)
Definition converter (detections src : json) (dst : string)
    (approximate : bool) : io (gmap nat ndarray) (list detection) :=
  match detections with
  | JArr frames =>
      mapM (λ frame,
              js ← lift (json_getitem_str frame "joints");
              ps ← lift (json_getitem_str frame "pafs");
              match js, ps with
              | JArr js, JArr ps =>
                  joints ← mapM (λ j, a ← lift (json_array j); alloc a) js;
                  pafs ← mapM (λ j, a ← lift (json_array j); alloc a) ps;
                  mret {| joints := joints; pafs := pafs |}
              | _, _ => lift (Raise TypeError)
              end) frames
  | _ => lift (Raise TypeError)
  end.

Definition frame_json : json :=
  JObj [ ("joints",
          JArr [ JArr [ JArr [JNum 0.5; JNum 0.25; JNum 1] ]; JArr [] ]);
         ("pafs", JArr [ JArr [ JArr [JNum 0.75] ] ]) ]%float.

Definition files : gmap string string :=
  {[ "meta/scene_0/kps2d_paf.json" := "scene 0" ]}.

Definition parse (content : string) : result json :=
  if String.eqb content "scene 0"
  then Ok (JObj [ ("convention", JStr "openpose_25");
                  ("data", JArr [ JArr [frame_json; frame_json];
                                  JArr [frame_json; frame_json] ]) ])
  else Raise JSONDecodeError.

Definition fresh_dataset (n_scene : nat) : dataset :=
  {| data_root := "data"; meta_path := "meta"; shuffled := false;
     kps2d_convention := "fourdag19"; cam_k_dim := 3; n_scene := n_scene;
     image_list := [ [ ["s0/v0/f0.png"; "s0/v1/f0.png"];
                       ["s0/v0/f1.png"; "s0/v1/f1.png"] ] ];
     fisheye_params := [ [camera; camera] ];
     gt3d := [ [ {| shape := [1; 1; 4]%nat; data := [0; 0; 0; 1]%float |};
                 {| shape := [1; 1; 4]%nat; data := [1; 1; 1; 1]%float |} ] ];
     percep_keypoints2d := None; n_views := None |}.

Definition fresh_world (n_scene : nat) : world :=
  {| self_ := fresh_dataset n_scene; heap := ∅; opened := [] |}.

(** The world after [load_perception_2d] on one scene. *)
Definition loaded_world : world :=
  (load_perception_2d converter files parse (fresh_world 1)).2.

Definition loaded_dataset : dataset :=
  Eval vm_compute in self_ loaded_world.

Definition no_item : item :=
  {| mview_img_tensor := Tensor [] []; k_tensor := Tensor [] [];
     r_tensor := Tensor [] []; t_tensor := Tensor [] [];
     kps3d := Tensor [] []; end_of_clip := false; kw_data := [] |}.

(** The items of the two frames. *)
Definition item_at (index : Z) : item :=
  match __getitem__ dataset_len index_mapping pipeline loaded_dataset index
  with
  | Ok out => out
  | Raise _ => no_item
  end.

Definition first_item : item := Eval vm_compute in item_at 0.
Definition last_item : item := Eval vm_compute in item_at 1.

(** A store with one joint array of one candidate, one empty joint array
    and one part affinity array, and the record that holds them. *)
Definition small_heap : gmap nat ndarray :=
  {[ 0%nat := Arr2 3 [ [0.5; 0.25; 1] ]%float;
     1%nat := Arr1 [];
     2%nat := Arr2 1 [ [0.75] ]%float ]}.

Definition small_detections : list detection :=
  [ {| joints := [0; 1]%nat; pafs := [2%nat] |} ].



End Fixture.

(** * Properties *)

(** ** The runtime fragment on examples *)

Example getitem_neg : getitem [10; 20; 30] (-1) = Ok 30.
Proof. reflexivity. Qed.
Example getitem_oob : getitem [10; 20; 30] 3 = Raise IndexError.
Proof. reflexivity. Qed.
Example slice_clamped : slice [10; 20; 30; 40] 1 9 = [20; 30; 40].
Proof. reflexivity. Qed.
Example slice_negative : slice [10; 20; 30; 40] (-3) (-1) = [20; 30].
Proof. reflexivity. Qed.
Example slice_crossed : slice [10; 20; 30; 40] 3 1 = [].
Proof. reflexivity. Qed.
Example range_chunks : range 0 7 3 = Ok [0; 3; 6].
Proof. reflexivity. Qed.
Example range_zero_step : range 0 0 0 = Raise ValueError.
Proof. reflexivity. Qed.
Example int_of_float_trunc :
  int_of_float 3.75%float = Ok 3 ∧ int_of_float (-3.75)%float = Ok (-3).
Proof. split; reflexivity. Qed.
Example int_of_float_nan : int_of_float (0 / 0)%float = Raise ValueError.
Proof. reflexivity. Qed.


(** ** The error monad and the list operations *)

Lemma bind_Ok {A B} (m : result A) (f : A → result B) (b : B) :
  m ≫= f = Ok b ↔ ∃ a, m = Ok a ∧ f a = Ok b.
Proof.
  destruct m as [a|e]; simpl; split.
  - intros H. by exists a.
  - by intros (a' & [= <-] & H).
  - discriminate.
  - by intros (a' & [=] & _).
Qed.

Lemma getitem_nat {A} (l : list A) (i : nat) :
  getitem l (Z.of_nat i)
  = match l !! i with Some x => Ok x | None => Raise IndexError end.
Proof.
  unfold getitem.
  destruct (Z.ltb_spec (Z.of_nat i) 0) as [?|_]; [lia|].
  destruct (Z.ltb_spec (Z.of_nat i) 0) as [?|_]; [lia|]. simpl.
  destruct (Z.leb_spec (Z.of_nat (length l)) (Z.of_nat i)) as [Hge|Hlt].
  - rewrite lookup_ge_None_2; [done | lia].
  - by rewrite Nat2Z.id.
Qed.

Lemma getitem_nat_Ok {A} (l : list A) (i : nat) (x : A) :
  getitem l (Z.of_nat i) = Ok x ↔ l !! i = Some x.
Proof.
  rewrite getitem_nat. destruct (l !! i); split; congruence.
Qed.

Lemma mapM_Ok_fmap {A B} (f : A → result B) (g : A → B) (l : list A) :
  (∀ x, x ∈ l → f x = Ok (g x)) → mapM f l = Ok (g <$> l).
Proof.
  induction l as [|x l IH]; intros Hf; simpl; [done|].
  rewrite Hf by left. simpl.
  rewrite IH; [done|]. intros y Hy. apply Hf. by right.
Qed.

Lemma mapM_Ok_Forall2 {A B} (f : A → result B) (l : list A) (k : list B) :
  mapM f l = Ok k ↔ Forall2 (λ x y, f x = Ok y) l k.
Proof.
  revert k. induction l as [|x l IH]; intros k; simpl.
  - split; [intros [= <-]; constructor | by inversion 1].
  - split.
    + intros H. apply bind_Ok in H as (y & Hy & H).
      apply bind_Ok in H as (k' & Hk' & H). injection H as <-.
      constructor; [done | by apply IH].
    + inversion 1 as [|? y ? k' Hy Hk]; subst.
      rewrite Hy. simpl. apply IH in Hk. by rewrite Hk.
Qed.

Lemma slice_nat {A} (l : list A) (s e : nat) :
  slice l (Z.of_nat s) (Z.of_nat e) = take (e - s) (drop s l).
Proof.
  unfold slice, slice_len, slice_start, clamp.
  destruct (Z.ltb_spec (Z.of_nat s) 0) as [?|_]; [lia|].
  destruct (Z.ltb_spec (Z.of_nat e) 0) as [?|_]; [lia|].
  destruct (Nat.le_gt_cases (length l) s) as [Hs|Hs].
  - rewrite (drop_ge l s) by done. rewrite take_nil.
    rewrite drop_ge by lia. by rewrite take_nil.
  - replace (Z.to_nat (Z.of_nat s `min` Z.of_nat (length l))) with s by lia.
    destruct (Nat.le_gt_cases e (length l)) as [He|He].
    + f_equal. lia.
    + rewrite !take_ge; [done | |]; rewrite length_drop; lia.
Qed.

Lemma range_nil (start stop step : Z) :
  0 < step → stop ≤ start → range start stop step = Ok [].
Proof.
  intros Hstep Hle. unfold range.
  destruct (Z.eqb_spec step 0) as [?|_]; [lia|].
  destruct (Z.ltb_spec 0 step) as [_|?]; [|lia].
  destruct (Z.ltb_spec start stop) as [?|_]; [lia|]. done.
Qed.

Lemma range_cons (start stop step : Z) :
  0 < step → start < stop →
  ∃ starts, range (start + step) stop step = Ok starts
            ∧ range start stop step = Ok (start :: starts).
Proof.
  intros Hstep Hlt. unfold range.
  destruct (Z.eqb_spec step 0) as [?|_]; [lia|].
  destruct (Z.ltb_spec 0 step) as [_|?]; [|lia].
  destruct (Z.ltb_spec start stop) as [_|?]; [|lia].
  eexists. split; [reflexivity|]. f_equal.
  assert (Z.to_nat ((stop - start - 1) / step + 1)
          = S (Z.to_nat (if start + step <? stop
                         then (stop - (start + step) - 1) / step + 1
                         else 0))) as ->.
  { destruct (Z.ltb_spec (start + step) stop) as [Hlt'|Hge].
    - replace (stop - start - 1) with ((stop - (start + step) - 1) + 1 * step)
        by lia.
      rewrite Z.div_add by lia.
      assert (0 ≤ (stop - (start + step) - 1) / step)
        by (apply Z.div_pos; lia).
      lia.
    - rewrite Z.div_small by lia. done. }
  simpl. f_equal; [lia|].
  rewrite <- fmap_S_seq, <- list_fmap_compose.
  apply list_fmap_ext. intros _ k _. simpl. lia.
Qed.

(** ** infer_single_img *)

Section EstimatorFacts.

Context (cvtColor_BGR2RGB : Mediapipe.ndimage → result Mediapipe.ndimage)
        (imread : string → option Mediapipe.ndimage)
        (video_to_array : string → result (list Mediapipe.ndimage))
        (get_keypoint_num : string → nat).

Import Mediapipe.

Local Abbreviation infer_single_img_body :=
  (Mediapipe.infer_single_img_body cvtColor_BGR2RGB).
Local Abbreviation infer_single_img_loop :=
  (Mediapipe.infer_single_img_loop cvtColor_BGR2RGB).
Local Abbreviation infer_single_img :=
  (Mediapipe.infer_single_img cvtColor_BGR2RGB).
Local Abbreviation infer_array_frame :=
  (Mediapipe.infer_array_frame cvtColor_BGR2RGB).
Local Abbreviation infer_array_loop :=
  (Mediapipe.infer_array_loop cvtColor_BGR2RGB).
Local Abbreviation infer_array :=
  (Mediapipe.infer_array cvtColor_BGR2RGB get_keypoint_num).
Local Abbreviation infer_frames_loop :=
  (Mediapipe.infer_frames_loop cvtColor_BGR2RGB imread get_keypoint_num).
Local Abbreviation infer_frames :=
  (Mediapipe.infer_frames cvtColor_BGR2RGB imread get_keypoint_num).
Local Abbreviation infer_video :=
  (Mediapipe.infer_video cvtColor_BGR2RGB video_to_array get_keypoint_num).

Lemma infer_single_img_body_spec self img_arr bbox_dict entry :
  infer_single_img_body self img_arr bbox_dict = Ok entry
  ↔ contributes cvtColor_BGR2RGB self img_arr bbox_dict entry.
Proof.
  unfold Mediapipe.infer_single_img_body, contributes.
  change 4 with (Z.of_nat 4); change 3 with (Z.of_nat 3);
    change 2 with (Z.of_nat 2); change 1 with (Z.of_nat 1);
    change 0 with (Z.of_nat 0).
  rewrite !getitem_nat.
  split.
  - intros H. apply bind_Ok in H as (score' & Hscore & H).
    destruct (bd_bbox bbox_dict !! 4%nat) as [score|] eqn:H4;
      [injection Hscore as <- | discriminate].
    exists score. split; [done|].
    destruct (PrimFloat.ltb (bbox_thr self) score); [|by injection H as <-].
    apply bind_Ok in H as (r0 & Hr0 & H).
    apply bind_Ok in Hr0 as (y0 & Hy0 & Hr0).
    apply bind_Ok in H as (r1 & Hr1 & H).
    apply bind_Ok in Hr1 as (y1 & Hy1 & Hr1).
    apply bind_Ok in H as (c0 & Hc0 & H).
    apply bind_Ok in Hc0 as (x0 & Hx0 & Hc0).
    apply bind_Ok in H as (c1 & Hc1 & H).
    apply bind_Ok in Hc1 as (x1 & Hx1 & Hc1).
    apply bind_Ok in H as (img & Himg & H).
    apply bind_Ok in H as (rgb & Hrgb & H).
    apply bind_Ok in H as (result_mp & Hmp & H).
    destruct (bd_bbox bbox_dict !! 1%nat) as [?|];
      [injection Hy0 as -> | discriminate].
    destruct (bd_bbox bbox_dict !! 3%nat) as [?|];
      [injection Hy1 as -> | discriminate].
    destruct (bd_bbox bbox_dict !! 0%nat) as [?|];
      [injection Hx0 as -> | discriminate].
    destruct (bd_bbox bbox_dict !! 2%nat) as [?|];
      [injection Hx1 as -> | discriminate].
    destruct img_arr as [a|]; [injection Himg as <- | discriminate].
    exists x0, y0, x1, y1, a, r0, r1, c0, c1, rgb, result_mp.
    repeat (split; [done|]).
    destruct result_mp as [pose_landmarks|]; [|by injection H as <-].
    erewrite mapM_Ok_fmap in H by done. by injection H as <-.
  - intros (score & -> & H). simpl.
    destruct (PrimFloat.ltb (bbox_thr self) score); [|by subst].
    destruct H as (x0 & y0 & x1 & y1 & a & r0 & r1 & c0 & c1 & rgb & result_mp
                   & -> & -> & -> & -> & -> & Hr0 & Hr1 & Hc0 & Hc1
                   & Hrgb & Hmp & ->).
    simpl. rewrite Hr0, Hr1, Hc0, Hc1. simpl. rewrite Hrgb. simpl.
    rewrite Hmp. simpl.
    destruct result_mp as [pose_landmarks|]; [|done].
    by erewrite mapM_Ok_fmap by done.
Qed.

Lemma infer_single_img_loop_spec self img_arr bbox_list acc out :
  infer_single_img_loop self img_arr bbox_list acc = Ok out
  ↔ ∃ entries,
      Forall2 (contributes cvtColor_BGR2RGB self img_arr) bbox_list entries
      ∧ out = acc ++ omap id entries.
Proof.
  revert acc. induction bbox_list as [|bd bl IH]; intros acc; simpl.
  - split.
    + intros [= <-]. exists []. split; [constructor | by rewrite app_nil_r].
    + intros (entries & HF & ->). inversion HF; subst.
      simpl. by rewrite app_nil_r.
  - rewrite bind_Ok. split.
    + intros (person & Hp & H). apply IH in H as (entries & HF & ->).
      exists (person :: entries). split.
      * constructor; [by apply infer_single_img_body_spec | done].
      * destruct person; simpl; [by rewrite <- app_assoc | done].
    + intros (entries & HF & ->).
      inversion HF as [|? person ? entries' Hp HF']; subst.
      exists person. split; [by apply infer_single_img_body_spec|].
      apply IH. exists entries'. split; [done|].
      destruct person; simpl; [by rewrite <- app_assoc | done].
Qed.

(** C3. [infer_single_img] returns exactly when every bbox of the list can
    be handled, and then its result lists, in the order of the bboxes, one
    entry per bbox whose score exceeds [bbox_thr] and in whose crop the pose
    model finds landmarks.  The keypoints of that entry are, per landmark,
    (x * crop width + bbox[0], y * crop height + bbox[1], visibility).
    The other bboxes add nothing. *)
Theorem infer_single_img_rescales self img_arr bbox_list out :
  infer_single_img self img_arr bbox_list = Ok out
  ↔ ∃ entries,
      Forall2 (contributes cvtColor_BGR2RGB self img_arr) bbox_list entries
      ∧ out = omap id entries.
Proof.
  unfold Mediapipe.infer_single_img.
  by rewrite infer_single_img_loop_spec.
Qed.

(** ** infer_array: one frame *)

Lemma broadcast_to_Ok {A} (P : A → Prop) (n : nat) (v r : list A) :
  broadcast_to n v = Ok r → length r = n ∧ (Forall P v → Forall P r).
Proof.
  unfold broadcast_to. destruct (Nat.eqb_spec (length v) n) as [<-|_].
  - by intros [= <-].
  - destruct v as [|x [|]]; [done | | done]. intros [= <-].
    split; [by rewrite length_replicate|].
    intros Hx%Forall_inv. by apply Forall_replicate.
Qed.

Lemma setitem_vec_Ok width a idx v a' :
  setitem_vec width a idx v = Ok a' →
  ∃ row, length row = width ∧ (idx < length a)%nat ∧ a' = <[idx := row]> a.
Proof.
  unfold setitem_vec. destruct (Nat.ltb_spec idx (length a)) as [Hidx|]; [|done].
  intros H. apply bind_Ok in H as (row & Hrow & H). injection H as <-.
  apply (broadcast_to_Ok (λ _, True)) in Hrow as [Hl _]. by exists row.
Qed.

Lemma setitem_mat_Ok n width a idx v a' :
  setitem_mat n width a idx v = Ok a' →
  ∃ mat, length mat = n ∧ Forall (λ kp, length kp = width) mat
         ∧ (idx < length a)%nat ∧ a' = <[idx := mat]> a.
Proof.
  unfold setitem_mat. destruct (Nat.ltb_spec idx (length a)) as [Hidx|]; [|done].
  destruct v as [|row v]; [done|]. intros H.
  apply bind_Ok in H as (rows & Hrows & H).
  apply bind_Ok in H as (mat & Hmat & H). injection H as <-.
  apply mapM_Ok_Forall2 in Hrows.
  apply (broadcast_to_Ok (λ kp, length kp = width)) in Hmat as [Hl HF].
  exists mat. repeat split; [done | | done].
  apply HF. eapply Forall2_Forall_r; [exact Hrows|]. apply Forall_true.
  intros x y Hxy. by apply (broadcast_to_Ok (λ _, True)) in Hxy as [? _].
Qed.

Lemma fill_results_Ok n_kps pose_results idx fk fb fk' fb' :
  fill_results n_kps pose_results idx fk fb = Ok (fk', fb') →
  length fk' = length fk ∧ length fb' = length fb
  ∧ (Forall (person_shape n_kps) fk → Forall (person_shape n_kps) fk')
  ∧ (Forall (λ bbox, length bbox = 5%nat) fb
     → Forall (λ bbox, length bbox = 5%nat) fb')
  ∧ (∀ j, (idx + length pose_results ≤ j)%nat
          → fk' !! j = fk !! j ∧ fb' !! j = fb !! j).
Proof.
  revert idx fk fb.
  induction pose_results as [|person pose_results IH]; intros idx fk fb; simpl.
  - by intros [= <- <-].
  - intros H. apply bind_Ok in H as (fb1 & Hfb1 & H).
    apply bind_Ok in H as (fk1 & Hfk1 & H).
    apply setitem_vec_Ok in Hfb1 as (row & Hrow & Hidx & ->).
    apply setitem_mat_Ok in Hfk1 as (mat & Hmat & Hkp & Hidx' & ->).
    apply IH in H as (Hlk & Hlb & Hsk & Hsb & Hrest).
    rewrite length_insert in Hlk. rewrite length_insert in Hlb.
    repeat split; [done | done | | | |].
    + intros HF. apply Hsk. by apply Forall_insert.
    + intros HF. apply Hsb. by apply Forall_insert.
    + destruct (Hrest j) as [-> _]; [lia|].
      apply list_lookup_insert_ne. lia.
    + destruct (Hrest j) as [_ ->]; [lia|].
      apply list_lookup_insert_ne. lia.
Qed.

Lemma select_bboxes_Ok bboxes idx acc out :
  select_bboxes bboxes idx acc = Ok out →
  ∃ kept, out = acc ++ kept ∧ (length kept ≤ length bboxes)%nat
          ∧ (kept = [] ↔ has_positive_score bboxes = false).
Proof.
  revert idx acc. induction bboxes as [|bbox bboxes IH]; intros idx acc; simpl.
  - intros [= <-]. exists []. by rewrite app_nil_r.
  - intros H. apply bind_Ok in H as (score & Hs & H).
    apply (getitem_nat_Ok bbox 4) in Hs.
    unfold has_positive_score, score_positive in *. simpl. rewrite Hs.
    apply IH in H as (kept & -> & Hlen & Hnil).
    destruct (PrimFloat.ltb 0 score); simpl.
    + eexists (_ :: kept). rewrite <- app_assoc. simpl.
      repeat split; [lia | done | done].
    + exists kept. repeat split; [lia | apply Hnil | apply Hnil].
Qed.

Lemma infer_single_img_length self img_arr bbox_list out :
  infer_single_img self img_arr bbox_list = Ok out →
  (length out ≤ length bbox_list)%nat.
Proof.
  unfold Mediapipe.infer_single_img.
  intros (entries & HF & ->)%infer_single_img_loop_spec.
  rewrite (Forall2_length _ _ _ HF). clear HF. simpl.
  induction entries as [|[e|] entries IH]; cbn in *; lia.
Qed.

Lemma infer_array_frame_Ok self n_kps img_arr bboxes fk fb :
  infer_array_frame self n_kps img_arr bboxes = Ok (fk, fb) →
  if has_positive_score bboxes then
    length fk = length bboxes ∧ Forall (person_shape n_kps) fk
    ∧ length fb = length bboxes ∧ Forall (λ bbox, length bbox = 5%nat) fb
    ∧ ∃ bboxes_in_frame pose_results,
        select_bboxes bboxes 0 [] = Ok bboxes_in_frame
        ∧ infer_single_img self img_arr bboxes_in_frame = Ok pose_results
        ∧ ∀ j, (length pose_results ≤ j < length bboxes)%nat →
               fk !! j = Some (replicate n_kps (replicate 3 0%float))
               ∧ fb !! j = Some (replicate 5 0%float)
  else fk = [] ∧ fb = [].
Proof.
  unfold Mediapipe.infer_array_frame. intros H.
  apply bind_Ok in H as (bif & Hbif & H).
  destruct (select_bboxes_Ok _ _ _ _ Hbif) as (kept & -> & _ & Hnil).
  simpl in *.
  destruct (has_positive_score bboxes).
  - destruct kept as [|bd kept]; [destruct Hnil as [Hnil _]; by discriminate Hnil|].
    simpl in H. apply bind_Ok in H as (pose_results & Hpose & H).
    apply fill_results_Ok in H as (Hlk & Hlb & Hsk & Hsb & Hrest).
    unfold zeros3, zeros2 in *.
    rewrite length_replicate in Hlk. rewrite length_replicate in Hlb.
    repeat split; [done | | done | |].
    + apply Hsk, Forall_replicate. split; [by rewrite length_replicate|].
      apply Forall_replicate. by rewrite length_replicate.
    + apply Hsb, Forall_replicate. by rewrite length_replicate.
    + exists (bd :: kept), pose_results. repeat split; [done | done | |].
      * destruct (Hrest j) as [-> _]; [simpl; lia|].
        apply lookup_replicate_2. lia.
      * destruct (Hrest j) as [_ ->]; [simpl; lia|].
        apply lookup_replicate_2. lia.
  - destruct kept; [|destruct Hnil as [_ Hnil]; by discriminate Hnil].
    simpl in H. by injection H as <- <-.
Qed.

(** ** infer_array: the frame loop *)

Lemma infer_array_loop_Ok self n_kps image_array bbox_list frame_index
    acc_kps acc_bbox ret_kps ret_bbox :
  infer_array_loop self n_kps image_array bbox_list frame_index
    acc_kps acc_bbox = Ok (ret_kps, ret_bbox) →
  ∃ frames : list (list (list (list float)) * list (list float)),
    length frames = length image_array
    ∧ ret_kps = acc_kps ++ frames.*1 ∧ ret_bbox = acc_bbox ++ frames.*2
    ∧ ∀ i img_arr, image_array !! i = Some img_arr →
        ∃ bboxes frame,
          bbox_list !! (frame_index + i)%nat = Some bboxes
          ∧ infer_array_frame self n_kps img_arr bboxes = Ok frame
          ∧ frames !! i = Some frame.
Proof.
  revert frame_index acc_kps acc_bbox.
  induction image_array as [|img image_array IH];
    intros frame_index acc_kps acc_bbox; simpl.
  - intros [= <- <-]. exists []. by rewrite !app_nil_r.
  - intros H. apply bind_Ok in H as (bboxes & Hbb & H).
    apply getitem_nat_Ok in Hbb.
    apply bind_Ok in H as ([fk fb] & Hframe & H).
    apply IH in H as (frames & Hlen & -> & -> & Hall).
    exists ((fk, fb) :: frames). simpl.
    rewrite <- !app_assoc. repeat split; [by rewrite Hlen|].
    intros [|i] img_arr Hi; simpl in *.
    + injection Hi as <-. exists bboxes, (fk, fb).
      by rewrite Nat.add_0_r.
    + destruct (Hall i img_arr Hi) as (bboxes' & frame & Hb & Hf & Hl).
      exists bboxes', frame. by rewrite <- Nat.add_succ_comm.
Qed.

Lemma infer_array_Ok self image_array bbox_list disable_tqdm return_heatmap
    ret_kps hm ret_bbox :
  infer_array self image_array bbox_list disable_tqdm return_heatmap
  = Ok (ret_kps, hm, ret_bbox) →
  hm = None
  ∧ length ret_kps = length image_array
  ∧ length ret_bbox = length image_array
  ∧ ∀ i bboxes, (i < length image_array)%nat → bbox_list !! i = Some bboxes →
      ∃ img_arr fk fb,
        image_array !! i = Some img_arr
        ∧ ret_kps !! i = Some fk ∧ ret_bbox !! i = Some fb
        ∧ infer_array_frame self
            (get_keypoint_num (get_keypoints_convention_name self))
            img_arr bboxes = Ok (fk, fb).
Proof.
  unfold Mediapipe.infer_array. intros H.
  apply bind_Ok in H as ([k b] & Hloop & H). injection H as <- <- <-.
  apply infer_array_loop_Ok in Hloop as (frames & Hlen & -> & -> & Hall).
  simpl. rewrite !length_fmap.
  repeat split; [done | done |].
  intros i bboxes Hi Hbb.
  destruct (lookup_lt_is_Some_2 image_array i Hi) as [img_arr Himg].
  destruct (Hall i img_arr Himg) as (bboxes' & [fk fb] & Hb & Hf & Hl).
  simpl in Hb. rewrite Hbb in Hb. injection Hb as <-.
  exists img_arr, fk, fb. rewrite !list_lookup_fmap, Hl. done.
Qed.

(** C2. Whenever [infer_array] returns, its keypoints and bbox lists have
    one entry per frame.  For a frame with at least one bbox of positive
    score the keypoints entry has one element per input bbox of the frame,
    each of shape (n_kps, 3) with n_kps the keypoint number of
    'mediapipe_body', and the bbox entry has one row of 5 values per input
    bbox; for a frame without such a bbox both entries are empty. *)
Theorem infer_array_shapes pose thr image_array bbox_list
    disable_tqdm return_heatmap ret_kps hm ret_bbox :
  infer_array (__init__ pose thr) image_array bbox_list
    disable_tqdm return_heatmap = Ok (ret_kps, hm, ret_bbox) →
  length ret_kps = length image_array
  ∧ length ret_bbox = length image_array
  ∧ ∀ i bboxes, (i < length image_array)%nat → bbox_list !! i = Some bboxes →
      ∃ fk fb,
        ret_kps !! i = Some fk ∧ ret_bbox !! i = Some fb
        ∧ if has_positive_score bboxes then
            length fk = length bboxes
            ∧ Forall (λ person,
                        length person = get_keypoint_num "mediapipe_body"
                        ∧ Forall (λ kp, length kp = 3%nat) person) fk
            ∧ length fb = length bboxes
            ∧ Forall (λ bbox, length bbox = 5%nat) fb
          else fk = [] ∧ fb = [].
Proof.
  intros (_ & Hlk & Hlb & Hall)%infer_array_Ok.
  repeat split; [done | done |].
  intros i bboxes Hi Hbb.
  destruct (Hall i bboxes Hi Hbb) as (img_arr & fk & fb & _ & Hk & Hb & Hf).
  exists fk, fb. repeat split; [done | done |].
  apply infer_array_frame_Ok in Hf. simpl in Hf.
  destruct (has_positive_score bboxes); [|done].
  by destruct Hf as (? & ? & ? & ? & _).
Qed.

(** C6. Whenever [infer_array] returns, in every frame with a bbox of
    positive score the rows of the keypoints entry from index
    [len(pose_results)] on are all zero, the confidence column included,
    and so are the same rows of the bbox entry; [pose_results] is what
    [infer_single_img] returns for the bboxes that pass the score filter. *)
Theorem infer_array_undetected_rows_zero self image_array bbox_list
    disable_tqdm return_heatmap ret_kps hm ret_bbox :
  infer_array self image_array bbox_list disable_tqdm return_heatmap
  = Ok (ret_kps, hm, ret_bbox) →
  ∀ i bboxes, (i < length image_array)%nat → bbox_list !! i = Some bboxes →
    has_positive_score bboxes = true →
    ∃ img_arr bboxes_in_frame pose_results fk fb,
      image_array !! i = Some img_arr
      ∧ select_bboxes bboxes 0 [] = Ok bboxes_in_frame
      ∧ infer_single_img self img_arr bboxes_in_frame = Ok pose_results
      ∧ ret_kps !! i = Some fk ∧ ret_bbox !! i = Some fb
      ∧ ∀ j, (length pose_results ≤ j < length bboxes)%nat →
          fk !! j
          = Some (replicate
                    (get_keypoint_num (get_keypoints_convention_name self))
                    [0%float; 0%float; 0%float])
          ∧ (∀ person kp, fk !! j = Some person → kp ∈ person →
                          kp !! 2%nat = Some 0%float)
          ∧ fb !! j = Some [0%float; 0%float; 0%float; 0%float; 0%float].
Proof.
  intros (_ & _ & _ & Hall)%infer_array_Ok i bboxes Hi Hbb Hpos.
  destruct (Hall i bboxes Hi Hbb) as (img_arr & fk & fb & Himg & Hk & Hb & Hf).
  apply infer_array_frame_Ok in Hf. rewrite Hpos in Hf.
  destruct Hf as (_ & _ & _ & _ & bif & pose_results & Hsel & Hpose & Hzero).
  exists img_arr, bif, pose_results, fk, fb.
  repeat split; [done | done | done | done | done | | |];
    destruct (Hzero j) as [Hkz Hbz]; [done | done | done | | done | done].
  intros person kp. rewrite Hkz. intros [= <-] [-> _]%elem_of_replicate.
  done.
Qed.

(** ** infer_array returns on well-formed input *)

Lemma broadcast_to_same {A} (n : nat) (v : list A) :
  length v = n → broadcast_to n v = Ok v.
Proof. intros <-. unfold broadcast_to. by rewrite Nat.eqb_refl. Qed.

Lemma infer_single_img_body_returns self n_kps img_arr bbox_dict :
  pose_model_total cvtColor_BGR2RGB self n_kps →
  bbox_well_formed img_arr (bd_bbox bbox_dict) →
  ∃ entry,
    infer_single_img_body self (Some img_arr) bbox_dict = Ok entry
    ∧ ∀ person, entry = Some person → person_fits n_kps person.
Proof.
  intros Htotal (x0 & y0 & x1 & y1 & score & r0 & r1 & c0 & c1
                 & Hbbox & Hr0 & Hr1 & Hc0 & Hc1 & Hw & Hh).
  destruct (Htotal (crop img_arr r0 r1 c0 c1) Hw Hh)
    as (rgb & result_mp & Hrgb & Hmp & Hlen).
  exists (if PrimFloat.ltb (bbox_thr self) score
          then (λ pose_landmarks,
                  {| pd_bbox := bd_bbox bbox_dict;
                     pd_keypoints :=
                       (λ landmark,
                          [ (lm_x landmark
                             * float_of_nat
                                 (im_width (crop img_arr r0 r1 c0 c1))
                             + x0)%float;
                            (lm_y landmark
                             * float_of_nat
                                 (im_height (crop img_arr r0 r1 c0 c1))
                             + y0)%float;
                            lm_visibility landmark ]) <$> pose_landmarks |})
               <$> result_mp
          else None).
  split.
  - apply infer_single_img_body_spec. exists score. rewrite Hbbox.
    split; [done|].
    destruct (PrimFloat.ltb (bbox_thr self) score) eqn:Hthr; [|done].
    exists x0, y0, x1, y1, img_arr, r0, r1, c0, c1, rgb, result_mp.
    by repeat split.
  - destruct (PrimFloat.ltb (bbox_thr self) score); [|done].
    destruct result_mp as [pose_landmarks|]; [|done].
    intros person [= <-]. rewrite Hbbox. repeat split; simpl.
    + rewrite length_fmap. by apply Hlen.
    + apply Forall_fmap, Forall_true. by intros lm.
Qed.

Lemma infer_single_img_loop_returns self n_kps img_arr bbox_list acc :
  pose_model_total cvtColor_BGR2RGB self n_kps →
  Forall (λ bd, bbox_well_formed img_arr (bd_bbox bd)) bbox_list →
  Forall (person_fits n_kps) acc →
  ∃ out,
    infer_single_img_loop self (Some img_arr) bbox_list acc = Ok out
    ∧ Forall (person_fits n_kps) out
    ∧ (length out ≤ length acc + length bbox_list)%nat.
Proof.
  intros Htotal Hwf. revert acc.
  induction Hwf as [|bd bl Hbd Hbl IH]; intros acc Hacc; simpl.
  - exists acc. repeat split; [done | lia].
  - destruct (infer_single_img_body_returns self n_kps img_arr bd Htotal Hbd)
      as (entry & -> & Hentry). simpl.
    destruct entry as [person|].
    + destruct (IH (acc ++ [person])) as (out & Hout & Hfits & Hlen).
      { apply Forall_app. split; [done|]. apply Forall_singleton.
        by apply Hentry. }
      exists out. rewrite length_app in Hlen. simpl in Hlen.
      repeat split; [done | done | lia].
    + destruct (IH acc Hacc) as (out & Hout & Hfits & Hlen).
      exists out. repeat split; [done | done | lia].
Qed.

Lemma select_bboxes_returns img_arr bboxes idx acc :
  Forall (bbox_well_formed img_arr) bboxes →
  Forall (λ bd, bbox_well_formed img_arr (bd_bbox bd)) acc →
  ∃ out,
    select_bboxes bboxes idx acc = Ok out
    ∧ Forall (λ bd, bbox_well_formed img_arr (bd_bbox bd)) out
    ∧ (length out ≤ length acc + length bboxes)%nat.
Proof.
  intros Hwf. revert idx acc.
  induction Hwf as [|bbox bboxes Hbbox Hrest IH]; intros idx acc Hacc; simpl.
  - exists acc. repeat split; [done | lia].
  - pose proof Hbbox as (x0 & y0 & x1 & y1 & score & ? & ? & ? & ? & -> & _).
    simpl.
    destruct (IH (S idx)
                (if PrimFloat.ltb 0 score
                 then acc ++ [ {| bd_bbox := [x0; y0; x1; y1; score];
                                  bd_id := idx |} ]
                 else acc)) as (out & Hout & Hfits & Hlen).
    { destruct (PrimFloat.ltb 0 score); [|done].
      apply Forall_app. split; [done|]. by apply Forall_singleton. }
    exists out. repeat split; [done | done |].
    destruct (PrimFloat.ltb 0 score); [|lia].
    rewrite length_app in Hlen. simpl in Hlen. lia.
Qed.

Lemma fill_results_returns n_kps pose_results idx fk fb :
  (0 < n_kps)%nat →
  Forall (person_fits n_kps) pose_results →
  (idx + length pose_results ≤ length fk)%nat →
  length fb = length fk →
  ∃ r, fill_results n_kps pose_results idx fk fb = Ok r.
Proof.
  intros Hn Hfits. revert idx fk fb.
  induction Hfits as [|person pose_results [Hbbox [Hkps Hrows]] _ IH];
    intros idx fk fb Hidx Hlen; simpl in *.
  - by eexists.
  - unfold setitem_vec, setitem_mat.
    destruct (Nat.ltb_spec idx (length fb)) as [_|?]; [|lia].
    destruct (Nat.ltb_spec idx (length fk)) as [_|?]; [|lia].
    rewrite (broadcast_to_same 5) by done. simpl.
    destruct (pd_keypoints person) as [|kp kps] eqn:Hk; [simpl in *; lia|].
    rewrite <- Hk in *. clear Hk kp kps.
    assert (mapM (broadcast_to 3) (pd_keypoints person)
            = Ok (pd_keypoints person)) as ->.
    { apply mapM_Ok_Forall2. apply Forall2_same_length_lookup_2; [done|].
      intros i x y Hx Hy. rewrite Hx in Hy. injection Hy as <-.
      apply broadcast_to_same. by eapply (Forall_lookup_1 _ _ _ _ Hrows). }
    simpl. rewrite (broadcast_to_same n_kps) by done. simpl.
    apply IH; rewrite !length_insert; lia.
Qed.

(** X5. On frames that were read, with one list of well-formed bboxes per
    frame, and with a pose model that does not raise and returns [n_kps]
    landmarks per person, [infer_array] returns. *)
Theorem infer_array_returns self (images : list ndimage) bbox_list
    disable_tqdm return_heatmap :
  let n_kps := get_keypoint_num (get_keypoints_convention_name self) in
  (0 < n_kps)%nat →
  pose_model_total cvtColor_BGR2RGB self n_kps →
  Forall2 (λ img_arr bboxes, Forall (bbox_well_formed img_arr) bboxes)
          images bbox_list →
  ∃ ret_kps ret_bbox,
    infer_array self (Some <$> images) bbox_list disable_tqdm return_heatmap
    = Ok (ret_kps, None, ret_bbox).
Proof.
  intros n_kps Hn Htotal Hwf. unfold Mediapipe.infer_array.
  fold n_kps.
  assert (∀ done_ acc_kps acc_bbox,
            ∃ r, infer_array_loop self n_kps (Some <$> images)
                   (done_ ++ bbox_list) (length done_) acc_kps acc_bbox
                 = Ok r) as Hloop.
  { induction Hwf as [|img bboxes images bbox_list Hbboxes _ IH];
      intros done_ acc_kps acc_bbox; simpl in *; [by eexists|].
    rewrite getitem_nat, list_lookup_middle by done. simpl.
    unfold Mediapipe.infer_array_frame.
    destruct (select_bboxes_returns img bboxes 0 [] Hbboxes)
      as (bif & -> & Hbif & Hbl); [done|]. simpl.
    specialize (IH (done_ ++ [bboxes])).
    rewrite length_app, Nat.add_1_r, <- app_assoc in IH. simpl in IH.
    destruct (0 <? length bif)%nat; simpl; [|apply IH].
    unfold Mediapipe.infer_single_img.
    destruct (infer_single_img_loop_returns self n_kps img bif []
                Htotal Hbif) as (pose & -> & Hfits & Hpl); [done|].
    simpl in *.
    destruct (fill_results_returns n_kps pose 0
                (zeros3 (length bboxes) n_kps 3)
                (zeros2 (length bboxes) 5) Hn Hfits) as ([fk fb] & ->).
    - unfold zeros3. rewrite length_replicate. lia.
    - unfold zeros3, zeros2. by rewrite !length_replicate.
    - simpl. apply IH. }
  destruct (Hloop [] [] []) as ([k b] & Hrun). simpl in Hrun.
  rewrite Hrun. by exists k, b.
Qed.

(** ** The heatmap slot *)

(** C9. [infer_array], [infer_frames] and [infer_video] return, whenever
    they return, a triple whose second component is [None], and the value
    of [return_heatmap] does not change what they do. *)
Theorem heatmap_is_always_None self image_array frame_path_list video_path
    bbox_list disable_tqdm return_heatmap return_heatmap' load_batch_size :
  (∀ k hm b,
     infer_array self image_array bbox_list disable_tqdm return_heatmap
     = Ok (k, hm, b) → hm = None)
  ∧ (∀ k hm b,
       infer_frames self frame_path_list bbox_list disable_tqdm
         return_heatmap load_batch_size = Ok (k, hm, b) → hm = None)
  ∧ (∀ k hm b,
       infer_video self video_path bbox_list disable_tqdm return_heatmap
       = Ok (k, hm, b) → hm = None)
  ∧ infer_array self image_array bbox_list disable_tqdm return_heatmap
    = infer_array self image_array bbox_list disable_tqdm return_heatmap'
  ∧ infer_frames self frame_path_list bbox_list disable_tqdm
      return_heatmap load_batch_size
    = infer_frames self frame_path_list bbox_list disable_tqdm
        return_heatmap' load_batch_size
  ∧ infer_video self video_path bbox_list disable_tqdm return_heatmap
    = infer_video self video_path bbox_list disable_tqdm return_heatmap'.
Proof.
  repeat split.
  - intros k hm b H. by apply infer_array_Ok in H as [-> _].
  - unfold Mediapipe.infer_frames. intros k hm b H.
    apply bind_Ok in H as (starts & _ & H).
    apply bind_Ok in H as ([k' b'] & _ & H). by injection H as <- <- <-.
  - unfold Mediapipe.infer_video. intros k hm b H.
    apply bind_Ok in H as (arr & _ & H).
    apply bind_Ok in H as ([[k' hm'] b'] & _ & H). by injection H as <- <- <-.
Qed.

(** ** infer_frames: the chunk loop *)

Lemma infer_array_loop_acc self n_kps image_array bbox_list frame_index
    acc_kps acc_bbox :
  infer_array_loop self n_kps image_array bbox_list frame_index
    acc_kps acc_bbox
  = '(k, b) ← infer_array_loop self n_kps image_array bbox_list frame_index
                [] [];
    Ok (acc_kps ++ k, acc_bbox ++ b).
Proof.
  revert frame_index acc_kps acc_bbox.
  induction image_array as [|img image_array IH];
    intros frame_index acc_kps acc_bbox; simpl.
  - by rewrite !app_nil_r.
  - destruct (getitem bbox_list _) as [bboxes|]; simpl; [|done].
    destruct (infer_array_frame _ _ _ _) as [[fk fb]|]; simpl; [|done].
    rewrite IH. rewrite (IH _ [fk] [fb]).
    destruct (infer_array_loop _ _ _ _ _ [] []) as [[k b]|]; simpl; [|done].
    by rewrite <- !app_assoc.
Qed.

Lemma infer_array_loop_app self n_kps l1 l2 bbox_list frame_index
    acc_kps acc_bbox :
  infer_array_loop self n_kps (l1 ++ l2) bbox_list frame_index
    acc_kps acc_bbox
  = '(k, b) ← infer_array_loop self n_kps l1 bbox_list frame_index
                acc_kps acc_bbox;
    infer_array_loop self n_kps l2 bbox_list (frame_index + length l1) k b.
Proof.
  revert frame_index acc_kps acc_bbox.
  induction l1 as [|img l1 IH]; intros frame_index acc_kps acc_bbox; simpl.
  - by rewrite Nat.add_0_r.
  - destruct (getitem bbox_list _) as [bboxes|]; simpl; [|done].
    destruct (infer_array_frame _ _ _ _) as [[fk fb]|]; simpl; [|done].
    rewrite IH. by rewrite <- Nat.add_succ_comm.
Qed.

Lemma infer_array_loop_slice self n_kps image_array bbox_list
    (s c : nat) frame_index acc_kps acc_bbox :
  (frame_index + length image_array ≤ c)%nat →
  infer_array_loop self n_kps image_array (take c (drop s bbox_list))
    frame_index acc_kps acc_bbox
  = infer_array_loop self n_kps image_array bbox_list (s + frame_index)
      acc_kps acc_bbox.
Proof.
  revert frame_index acc_kps acc_bbox.
  induction image_array as [|img image_array IH];
    intros frame_index acc_kps acc_bbox Hlen; simpl in *; [done|].
  rewrite !getitem_nat, lookup_take_lt, lookup_drop by lia.
  destruct (bbox_list !! _) as [bboxes|]; simpl; [|done].
  destruct (infer_array_frame _ _ _ _) as [[fk fb]|]; simpl; [|done].
  rewrite IH by lia. by rewrite <- Nat.add_succ_comm.
Qed.

Lemma infer_frames_loop_chunks self frame_path_list bbox_list disable_tqdm
    (b : nat) (fuel s : nat) starts acc_kps acc_bbox :
  (0 < b)%nat →
  (length frame_path_list - s ≤ fuel)%nat →
  range (Z.of_nat s) (Z.of_nat (length frame_path_list)) (Z.of_nat b)
  = Ok starts →
  infer_frames_loop self frame_path_list bbox_list disable_tqdm
    (Z.of_nat b) starts acc_kps acc_bbox
  = infer_array_loop self
      (get_keypoint_num (get_keypoints_convention_name self))
      (imread <$> drop s frame_path_list) bbox_list s acc_kps acc_bbox.
Proof.
  intros Hb. revert s starts acc_kps acc_bbox.
  induction fuel as [|fuel IH]; intros s starts acc_kps acc_bbox Hfuel Hr.
  - rewrite range_nil in Hr by lia. injection Hr as <-.
    by rewrite drop_ge by lia.
  - destruct (Nat.le_gt_cases (length frame_path_list) s) as [Hs|Hs].
    { rewrite range_nil in Hr by lia. injection Hr as <-.
      by rewrite drop_ge by lia. }
    destruct (range_cons (Z.of_nat s) (Z.of_nat (length frame_path_list))
                (Z.of_nat b)) as (rest & Hrest & Hr'); [lia | lia |].
    rewrite Hr' in Hr. injection Hr as <-. simpl.
    replace (Z.of_nat s + Z.of_nat b) with (Z.of_nat (s + b)) in * by lia.
    rewrite <- Nat2Z.inj_min, !slice_nat.
    unfold Mediapipe.infer_array.
    set (c := (length frame_path_list `min` (s + b) - s)%nat).
    rewrite infer_array_loop_slice
      by (rewrite length_fmap, length_take, length_drop; lia).
    rewrite Nat.add_0_r.
    rewrite <- (take_drop c (drop s frame_path_list)) at 2.
    rewrite fmap_app, infer_array_loop_app.
    rewrite (infer_array_loop_acc _ _ (imread <$> take c _) _ _ acc_kps).
    destruct (infer_array_loop _ _ (imread <$> take c _) _ _ [] [])
      as [[k bb]|]; simpl; [|done].
    rewrite (IH (s + b)%nat rest) by (done || lia).
    rewrite drop_drop, length_fmap, length_take, length_drop.
    destruct (Nat.le_gt_cases (s + b) (length frame_path_list)) as [Hle|Hgt].
    + by replace (s + c)%nat with (s + b)%nat by lia;
        replace (s + c `min` (length frame_path_list - s))%nat
          with (s + b)%nat by lia.
    + by rewrite !drop_ge by lia.
Qed.

(** X1. Chunked loading with a batch size of at least one is a single pass
    of [infer_array] over all the frames read, whatever the batch size:
    the same result, or the same exception. *)
Theorem infer_frames_chunked self frame_path_list bbox_list disable_tqdm
    return_heatmap (b : Z) :
  1 ≤ b →
  infer_frames self frame_path_list bbox_list disable_tqdm return_heatmap
    (Some b)
  = infer_array self (imread <$> frame_path_list) bbox_list
      disable_tqdm return_heatmap.
Proof.
  intros Hb. unfold Mediapipe.infer_frames, Mediapipe.infer_array.
  rewrite <- (Z2Nat.id b) by lia.
  destruct (range 0 _ _) as [starts|e] eqn:Hr.
  - simpl.
    rewrite (infer_frames_loop_chunks _ _ _ _ _
               (length frame_path_list) 0%nat starts) by (done || lia).
    by rewrite drop_0.
  - unfold range in Hr. destruct (Z.eqb_spec (Z.of_nat (Z.to_nat b)) 0); [lia|].
    discriminate.
Qed.

(** X2. With [load_batch_size=None] and at least one frame, [infer_frames]
    is a single pass of [infer_array] over all the frames read. *)
Theorem infer_frames_default self frame_path_list bbox_list disable_tqdm
    return_heatmap :
  frame_path_list ≠ [] →
  infer_frames self frame_path_list bbox_list disable_tqdm return_heatmap
    None
  = infer_array self (imread <$> frame_path_list) bbox_list
      disable_tqdm return_heatmap.
Proof.
  intros Hne. unfold Mediapipe.infer_frames, Mediapipe.infer_array.
  assert (0 < length frame_path_list)%nat as Hpos
    by (destruct frame_path_list; [done | simpl; lia]).
  destruct (range 0 _ _) as [starts|e] eqn:Hr.
  - simpl.
    rewrite (infer_frames_loop_chunks _ _ _ _ _
               (length frame_path_list) 0%nat starts) by (done || lia).
    by rewrite drop_0.
  - unfold range in Hr.
    destruct (Z.eqb_spec (Z.of_nat (length frame_path_list)) 0); [lia|].
    discriminate.
Qed.

(** C4, at the input where the code departs from it.  On an empty frame
    list a batch size of one returns the empty result, while
    [load_batch_size=None] makes the step of the chunk range zero and
    raises [ValueError]: the two calls do not agree there. *)
Theorem infer_frames_no_frames self disable_tqdm return_heatmap :
  infer_frames self [] [] disable_tqdm return_heatmap (Some 1)
  = Ok ([], None, [])
  ∧ infer_frames self [] [] disable_tqdm return_heatmap None
    = Raise ValueError.
Proof. split; reflexivity. Qed.

Lemma chunks_partition_from {A} (l : list A) (b fuel s : nat) starts :
  (0 < b)%nat →
  (length l - s ≤ fuel)%nat →
  range (Z.of_nat s) (Z.of_nat (length l)) (Z.of_nat b) = Ok starts →
  concat ((λ start,
             slice l start (Z.min (Z.of_nat (length l))
                                  (start + Z.of_nat b))) <$> starts)
  = drop s l.
Proof.
  intros Hb. revert s starts.
  induction fuel as [|fuel IH]; intros s starts Hfuel Hr.
  - rewrite range_nil in Hr by lia. injection Hr as <-.
    by rewrite drop_ge by lia.
  - destruct (Nat.le_gt_cases (length l) s) as [Hs|Hs].
    { rewrite range_nil in Hr by lia. injection Hr as <-.
      by rewrite drop_ge by lia. }
    destruct (range_cons (Z.of_nat s) (Z.of_nat (length l)) (Z.of_nat b))
      as (rest & Hrest & Hr'); [lia | lia |].
    rewrite Hr' in Hr. injection Hr as <-. rewrite fmap_cons. cbn [concat].
    replace (Z.of_nat s + Z.of_nat b) with (Z.of_nat (s + b)) in * by lia.
    rewrite (IH (s + b)%nat rest) by (done || lia).
    rewrite <- Nat2Z.inj_min, slice_nat.
    destruct (Nat.le_gt_cases (s + b) (length l)) as [Hle|Hgt].
    + replace (length l `min` (s + b) - s)%nat with b by lia.
      by rewrite <- drop_drop, take_drop.
    + rewrite (drop_ge l (s + b)) by lia.
      rewrite take_ge by (rewrite length_drop; lia).
      by rewrite app_nil_r.
Qed.

(** X3. For a batch size of at least one, the chunks
    [start, min(len, start + b)) that [infer_frames] cuts cover the list
    once and in order. *)
Theorem chunks_partition {A} (l : list A) (b : Z) starts :
  1 ≤ b →
  range 0 (Z.of_nat (length l)) b = Ok starts →
  concat ((λ start, slice l start (Z.min (Z.of_nat (length l)) (start + b)))
          <$> starts) = l.
Proof.
  intros Hb Hr. rewrite <- (Z2Nat.id b) in * by lia.
  by rewrite (chunks_partition_from l (Z.to_nat b) (length l) 0%nat starts)
    by (done || lia).
Qed.

(** ** infer_frames: batch sizes that are not positive *)

(** X4. A batch size of zero makes [infer_frames] raise [ValueError]; with
    a negative batch size the chunk range is empty and the call returns
    empty results without reading a frame. *)
Theorem infer_frames_nonpositive_batch self frame_path_list bbox_list
    disable_tqdm return_heatmap (b : Z) :
  b ≤ 0 →
  infer_frames self frame_path_list bbox_list disable_tqdm return_heatmap
    (Some b)
  = if b =? 0 then Raise ValueError else Ok ([], None, []).
Proof.
  intros Hb. unfold Mediapipe.infer_frames, range.
  destruct (Z.eqb_spec b 0) as [->|Hne]; [done|].
  destruct (Z.ltb_spec 0 b) as [?|_]; [lia|].
  destruct (Z.ltb_spec (Z.of_nat (length frame_path_list)) 0) as [?|_];
    [lia | done].
Qed.

(** ** infer_array: which rows hold which person *)

Lemma filter_sublist {A} (f : A → bool) (l : list A) :
  List.filter f l `sublist_of` l.
Proof.
  induction l as [|x l IH]; simpl; [constructor|].
  destruct (f x); by constructor.
Qed.

Lemma filter_Forall {A} (f : A → bool) (l : list A) :
  Forall (λ x, f x = true) (List.filter f l).
Proof.
  induction l as [|x l IH]; simpl; [constructor|].
  destruct (f x) eqn:Hx; [by constructor | done].
Qed.

Lemma select_bboxes_filter bboxes idx acc out :
  select_bboxes bboxes idx acc = Ok out →
  ∃ kept, out = acc ++ kept
          ∧ bd_bbox <$> kept = List.filter score_positive bboxes
          ∧ Forall (λ bbox, is_Some (bbox !! 4%nat)) bboxes.
Proof.
  revert idx acc. induction bboxes as [|bbox bboxes IH]; intros idx acc; simpl.
  - intros [= <-]. exists []. by rewrite app_nil_r.
  - intros H. apply bind_Ok in H as (score & Hs & H).
    apply (getitem_nat_Ok bbox 4) in Hs.
    apply IH in H as (kept & -> & Hkept & Hall).
    assert (score_positive bbox = PrimFloat.ltb 0 score) as ->
      by (unfold score_positive; by rewrite Hs).
    destruct (PrimFloat.ltb 0 score).
    + exists ({| bd_bbox := bbox; bd_id := idx |} :: kept).
      rewrite <- app_assoc, fmap_cons, Hkept.
      repeat split; constructor; [by eexists | done].
    + exists kept. repeat split; [done | constructor; [by eexists | done]].
Qed.

Lemma infer_single_img_persons self img_arr bbox_list out :
  infer_single_img self img_arr bbox_list = Ok out →
  (pd_bbox <$> out) `sublist_of` (bd_bbox <$> bbox_list)
  ∧ Forall (λ person,
              (∃ score, pd_bbox person !! 4%nat = Some score
                        ∧ PrimFloat.ltb (bbox_thr self) score = true)
              ∧ Forall (λ kp, length kp = 3%nat) (pd_keypoints person)) out
  ∧ (img_arr = None → out = []).
Proof.
  unfold Mediapipe.infer_single_img.
  intros (entries & HF & ->)%infer_single_img_loop_spec. simpl.
  induction HF as [|bd entry bl entries (score & Hscore & Hentry) _ IH].
  - repeat split; constructor.
  - destruct IH as (Hsub & Hall & Hnone).
    destruct (PrimFloat.ltb (bbox_thr self) score) eqn:Hthr.
    + destruct Hentry as (x0 & y0 & x1 & y1 & a & r0 & r1 & c0 & c1 & rgb
                          & result_mp & _ & _ & _ & _ & Himg & _ & _ & _ & _
                          & _ & _ & ->).
      destruct result_mp as [pose_landmarks|]; cbn.
      * repeat split.
        -- by constructor.
        -- constructor; [|done]. split; [by exists score|].
           simpl. apply Forall_fmap, Forall_true. by intros lm.
        -- by intros ->.
      * repeat split; [by constructor | done | by intros ->].
    + subst entry. cbn. repeat split; [by constructor | done | done].
Qed.

Lemma infer_array_frame_inv self n_kps img_arr bboxes fk fb :
  infer_array_frame self n_kps img_arr bboxes = Ok (fk, fb) →
  has_positive_score bboxes = true →
  ∃ bboxes_in_frame pose_results,
    select_bboxes bboxes 0 [] = Ok bboxes_in_frame
    ∧ infer_single_img self img_arr bboxes_in_frame = Ok pose_results
    ∧ fill_results n_kps pose_results 0
        (zeros3 (length bboxes) n_kps 3) (zeros2 (length bboxes) 5)
      = Ok (fk, fb).
Proof.
  unfold Mediapipe.infer_array_frame. intros H Hpos.
  apply bind_Ok in H as (bif & Hbif & H).
  destruct (select_bboxes_Ok _ _ _ _ Hbif) as (kept & -> & _ & Hnil).
  simpl in *. rewrite Hpos in Hnil.
  destruct kept as [|bd kept]; [destruct Hnil as [Hnil _]; by discriminate Hnil|].
  simpl in H. apply bind_Ok in H as (pose_results & Hpose & H).
  by exists (bd :: kept), pose_results.
Qed.

Lemma mapM_broadcast_rows (width : nat) (rows : list (list float)) :
  Forall (λ row, length row = width) rows →
  mapM (broadcast_to width) rows = Ok rows.
Proof.
  intros Hrows. apply mapM_Ok_Forall2.
  apply Forall2_same_length_lookup_2; [done|].
  intros i x y Hx Hy. rewrite Hx in Hy. injection Hy as <-.
  apply broadcast_to_same. by eapply (Forall_lookup_1 _ _ _ _ Hrows).
Qed.

(** What [fill_results] leaves in each row: the rows before [idx] as they
    were, and from [idx] on one row per person, broadcast to the slot. *)
Lemma fill_results_rows n_kps pose_results idx fk fb fk' fb' :
  fill_results n_kps pose_results idx fk fb = Ok (fk', fb') →
  (∀ j, (j < idx)%nat → fk' !! j = fk !! j ∧ fb' !! j = fb !! j)
  ∧ ∀ j person, pose_results !! j = Some person →
      ∃ row rows mat,
        broadcast_to 5 (pd_bbox person) = Ok row
        ∧ mapM (broadcast_to 3) (pd_keypoints person) = Ok rows
        ∧ broadcast_to n_kps rows = Ok mat
        ∧ fb' !! (idx + j)%nat = Some row
        ∧ fk' !! (idx + j)%nat = Some mat.
Proof.
  revert idx fk fb.
  induction pose_results as [|person pose_results IH]; intros idx fk fb; simpl.
  - intros [= <- <-]. split; [done|]. by intros j person.
  - intros H. apply bind_Ok in H as (fb1 & Hfb1 & H).
    apply bind_Ok in H as (fk1 & Hfk1 & H).
    unfold setitem_vec in Hfb1. unfold setitem_mat in Hfk1.
    destruct (Nat.ltb_spec idx (length fb)) as [Hib|]; [|done].
    destruct (Nat.ltb_spec idx (length fk)) as [Hik|]; [|done].
    apply bind_Ok in Hfb1 as (row & Hrow & [= <-]).
    destruct (pd_keypoints person) as [|kp kps] eqn:Hkps; [done|].
    rewrite <- Hkps in *.
    assert (pd_keypoints person ≠ []) as Hne by (by rewrite Hkps).
    clear Hkps kp kps.
    assert (∃ rows mat,
              mapM (broadcast_to 3) (pd_keypoints person) = Ok rows
              ∧ broadcast_to n_kps rows = Ok mat
              ∧ fk1 = <[idx := mat]> fk) as (rows & mat & Hrows & Hmat & ->).
    { destruct (pd_keypoints person); [done|].
      apply bind_Ok in Hfk1 as (rows & Hrows & Hfk1).
      apply bind_Ok in Hfk1 as (mat & Hmat & [= <-]). by exists rows, mat. }
    apply IH in H as [Hbefore Hrest]. split.
    + intros j Hj. destruct (Hbefore j) as [-> ->]; [lia|].
      split; apply list_lookup_insert_ne; lia.
    + intros [|j] person' Hj; simpl in Hj.
      * injection Hj as <-. exists row, rows, mat. rewrite Nat.add_0_r.
        destruct (Hbefore idx) as [-> ->]; [lia|].
        repeat split; [done | done | done | |];
          by apply list_lookup_insert_eq.
      * destruct (Hrest j person' Hj)
          as (row' & rows' & mat' & ? & ? & ? & Hb & Hk).
        exists row', rows', mat'.
        by rewrite <- Nat.add_succ_comm.
Qed.

(** X6. Whenever [infer_array] returns, in a frame with a bbox of positive
    score row [j] of the two per-frame arrays belongs to the [j]-th person
    of [pose_results], whatever the position of that person's bbox in the
    input: the bbox row is the person's bbox, and the keypoints row is the
    person's keypoints, repeated [n_kps] times when there is a single
    one. *)
Theorem infer_array_detected_rows self image_array bbox_list
    disable_tqdm return_heatmap ret_kps hm ret_bbox :
  infer_array self image_array bbox_list disable_tqdm return_heatmap
  = Ok (ret_kps, hm, ret_bbox) →
  ∀ i bboxes, (i < length image_array)%nat → bbox_list !! i = Some bboxes →
    has_positive_score bboxes = true →
    ∃ img_arr bboxes_in_frame pose_results fk fb,
      image_array !! i = Some img_arr
      ∧ select_bboxes bboxes 0 [] = Ok bboxes_in_frame
      ∧ infer_single_img self img_arr bboxes_in_frame = Ok pose_results
      ∧ ret_kps !! i = Some fk ∧ ret_bbox !! i = Some fb
      ∧ ∀ j person, pose_results !! j = Some person →
          fb !! j = Some (pd_bbox person)
          ∧ ((length (pd_keypoints person)
              = get_keypoint_num (get_keypoints_convention_name self)
              ∧ fk !! j = Some (pd_keypoints person))
             ∨ (∃ kp, pd_keypoints person = [kp]
                      ∧ fk !! j
                        = Some (replicate
                                  (get_keypoint_num
                                     (get_keypoints_convention_name self))
                                  kp))).
Proof.
  intros (_ & _ & _ & Hall)%infer_array_Ok i bboxes Hi Hbb Hpos.
  destruct (Hall i bboxes Hi Hbb) as (img_arr & fk & fb & Himg & Hk & Hb & Hf).
  destruct (infer_array_frame_inv _ _ _ _ _ _ Hf Hpos)
    as (bif & pose_results & Hsel & Hpose & Hfill).
  exists img_arr, bif, pose_results, fk, fb.
  repeat split; [done | done | done | done | done | |];
    destruct (fill_results_rows _ _ _ _ _ _ _ Hfill) as [_ Hrows];
    destruct (Hrows j person H)
      as (row & rows & mat & Hrow & Hmap & Hmat & Hfb & Hfk);
    destruct (infer_single_img_persons _ _ _ _ Hpose) as (_ & Hpersons & _);
    pose proof (Forall_lookup_1 _ _ _ _ Hpersons H)
      as [(score & Hscore & _) Hkp3]; simpl in Hfb, Hfk.
  - rewrite Hfb. f_equal. unfold broadcast_to in Hrow.
    destruct (Nat.eqb_spec (length (pd_bbox person)) 5);
      [by injection Hrow as <-|].
    by destruct (pd_bbox person) as [|? [|? [|? [|? [|]]]]].
  - rewrite (mapM_broadcast_rows _ _ Hkp3) in Hmap. injection Hmap as <-.
    rewrite Hfk. unfold broadcast_to in Hmat.
    destruct (Nat.eqb_spec (length (pd_keypoints person))
                (get_keypoint_num (get_keypoints_convention_name self)))
      as [Hlen|_].
    + injection Hmat as <-. by left.
    + destruct (pd_keypoints person) as [|kp [|]]; [done | | done].
      injection Hmat as <-. right. by exists kp.
Qed.

(** X7. Whenever [infer_array] returns, the bbox array of a frame with a
    bbox of positive score is a subsequence of the frame's input bboxes, in
    input order, padded with zero rows to the number of input bboxes; every
    bbox kept has a score above zero and above [bbox_thr]. *)
Theorem infer_array_bbox_rows self image_array bbox_list
    disable_tqdm return_heatmap ret_kps hm ret_bbox :
  infer_array self image_array bbox_list disable_tqdm return_heatmap
  = Ok (ret_kps, hm, ret_bbox) →
  ∀ i bboxes, (i < length image_array)%nat → bbox_list !! i = Some bboxes →
    has_positive_score bboxes = true →
    ∃ detected,
      detected `sublist_of` bboxes
      ∧ Forall (λ bbox, ∃ score, bbox !! 4%nat = Some score
                          ∧ PrimFloat.ltb 0 score = true
                          ∧ PrimFloat.ltb (bbox_thr self) score = true)
               detected
      ∧ ret_bbox !! i
        = Some (detected
                ++ replicate (length bboxes - length detected)
                     [0%float; 0%float; 0%float; 0%float; 0%float]).
Proof.
  intros (_ & _ & _ & Hall)%infer_array_Ok i bboxes Hi Hbb Hpos.
  destruct (Hall i bboxes Hi Hbb) as (img_arr & fk & fb & Himg & Hk & Hb & Hf).
  destruct (infer_array_frame_inv _ _ _ _ _ _ Hf Hpos)
    as (bif & pose_results & Hsel & Hpose & Hfill).
  destruct (select_bboxes_filter _ _ _ _ Hsel) as (kept & -> & Hkept & _).
  destruct (infer_single_img_persons _ _ _ _ Hpose) as (Hsub & Hpersons & _).
  simpl in Hsub. rewrite Hkept in Hsub.
  destruct (fill_results_rows _ _ _ _ _ _ _ Hfill) as [_ Hrows].
  destruct (fill_results_Ok _ _ _ _ _ _ _ Hfill)
    as (_ & Hlen & _ & _ & Hrest).
  unfold zeros2 in Hlen, Hrest. rewrite length_replicate in Hlen.
  exists (pd_bbox <$> pose_results). split; [|split].
  - etrans; [exact Hsub | apply filter_sublist].
  - apply Forall_forall. intros bbox Hin.
    pose proof (elem_of_sublist _ _ _ Hin Hsub) as Hfilter.
    pose proof (proj1 (Forall_forall _ _) (filter_Forall score_positive bboxes)
                  bbox Hfilter) as Hscore.
    apply list_elem_of_fmap in Hin as (person & -> & Hperson).
    pose proof (proj1 (Forall_forall _ _) Hpersons person Hperson)
      as [(score & H4 & Hthr) _].
    exists score. unfold score_positive in Hscore. rewrite H4 in Hscore.
    done.
  - rewrite Hb. f_equal. apply list_eq. intros j.
    rewrite length_fmap.
    destruct (Nat.lt_ge_cases j (length pose_results)) as [Hj|Hj].
    + rewrite lookup_app_l by (by rewrite length_fmap).
      destruct (lookup_lt_is_Some_2 pose_results j Hj) as [person Hperson].
      destruct (Hrows j person Hperson)
        as (row & rows & mat & Hrow & _ & _ & Hfb & _).
      simpl in Hfb. rewrite Hfb, list_lookup_fmap, Hperson. simpl.
      pose proof (Forall_lookup_1 _ _ _ _ Hpersons Hperson)
        as [(score & Hscore & _) _].
      unfold broadcast_to in Hrow.
      destruct (Nat.eqb_spec (length (pd_bbox person)) 5); [congruence|].
      by destruct (pd_bbox person) as [|? [|? [|? [|? [|]]]]].
    + rewrite lookup_app_r by (by rewrite length_fmap).
      rewrite length_fmap.
      destruct (Hrest j) as [_ ->]; [simpl; lia|].
      destruct (Nat.lt_ge_cases j (length bboxes)) as [Hjb|Hjb].
      * by rewrite !lookup_replicate_2 by lia.
      * rewrite (proj1 (lookup_replicate_None _ _ _)) by lia.
        by rewrite (proj1 (lookup_replicate_None _ _ _)) by lia.
Qed.

(** ** A frame that could not be read *)

Lemma infer_single_img_loop_unread self bbox_list acc out :
  infer_single_img_loop self None bbox_list acc = Ok out
  ↔ out = acc
    ∧ Forall (λ bd, ∃ score, bd_bbox bd !! 4%nat = Some score
                      ∧ PrimFloat.ltb (bbox_thr self) score = false)
             bbox_list.
Proof.
  rewrite infer_single_img_loop_spec. split.
  - intros (entries & HF & ->).
    assert (Forall (λ entry, entry = None) entries
            ∧ Forall (λ bd, ∃ score, bd_bbox bd !! 4%nat = Some score
                              ∧ PrimFloat.ltb (bbox_thr self) score = false)
                     bbox_list) as [Hnone Hall].
    { induction HF as [|bd entry bl entries (score & Hscore & Hentry) _ IH];
        [by split|].
      destruct IH as [IH1 IH2].
      destruct (PrimFloat.ltb (bbox_thr self) score) eqn:Hthr.
      - by destruct Hentry
          as (? & ? & ? & ? & ? & ? & ? & ? & ? & ? & ? & _ & _ & _ & _
              & ? & _).
      - split; constructor; [done | done | by exists score | done]. }
    split; [|done].
    assert (omap id entries = []) as ->; [|by rewrite app_nil_r].
    clear HF. induction Hnone as [|entry entries -> _ IH]; [done|].
    by cbn.
  - intros [-> Hall]. exists (replicate (length bbox_list) None). split.
    + induction Hall as [|bd bl (score & Hscore & Hthr) _ IH];
        [constructor|].
      simpl. constructor; [|done]. exists score. by rewrite Hthr.
    + assert (omap id (replicate (length bbox_list) (@None person_dict))
              = []) as ->; [|by rewrite app_nil_r].
      by induction (length bbox_list).
Qed.

(** X8. On an image that is [None], as [cv2.imread] returns for a file it
    cannot read, [infer_single_img] returns exactly when every bbox has a
    score that is not above [bbox_thr], and it then returns the empty
    list; a single bbox above the threshold makes it raise. *)
Theorem infer_single_img_unread self bbox_list out :
  infer_single_img self None bbox_list = Ok out
  ↔ out = []
    ∧ Forall (λ bd, ∃ score, bd_bbox bd !! 4%nat = Some score
                      ∧ PrimFloat.ltb (bbox_thr self) score = false)
             bbox_list.
Proof.
  unfold Mediapipe.infer_single_img. apply infer_single_img_loop_unread.
Qed.

(** X9. Whenever [infer_array] returns on a list of frames one of which is
    [None], no bbox of that frame has a score above zero and above
    [bbox_thr], and the frame's two arrays hold zeros only (or are empty
    when the frame has no bbox of positive score). *)
Theorem infer_array_unread_frame self image_array bbox_list
    disable_tqdm return_heatmap ret_kps hm ret_bbox :
  infer_array self image_array bbox_list disable_tqdm return_heatmap
  = Ok (ret_kps, hm, ret_bbox) →
  ∀ i bboxes, image_array !! i = Some None → bbox_list !! i = Some bboxes →
    Forall (λ bbox, ∀ score, bbox !! 4%nat = Some score →
                      PrimFloat.ltb 0 score = true →
                      PrimFloat.ltb (bbox_thr self) score = false) bboxes
    ∧ ret_kps !! i
      = Some (if has_positive_score bboxes
              then replicate (length bboxes)
                     (replicate
                        (get_keypoint_num (get_keypoints_convention_name self))
                        [0%float; 0%float; 0%float])
              else [])
    ∧ ret_bbox !! i
      = Some (if has_positive_score bboxes
              then replicate (length bboxes)
                     [0%float; 0%float; 0%float; 0%float; 0%float]
              else []).
Proof.
  intros (_ & _ & _ & Hall)%infer_array_Ok i bboxes Himg Hbb.
  destruct (Hall i bboxes (lookup_lt_Some _ _ _ Himg) Hbb)
    as (img_arr & fk & fb & Himg' & Hk & Hb & Hf).
  rewrite Himg in Himg'. injection Himg' as <-. rewrite Hk, Hb.
  destruct (has_positive_score bboxes) eqn:Hpos.
  - destruct (infer_array_frame_inv _ _ _ _ _ _ Hf Hpos)
      as (bif & pose_results & Hsel & Hpose & Hfill).
    destruct (select_bboxes_filter _ _ _ _ Hsel) as (kept & -> & Hkept & _).
    apply infer_single_img_loop_unread in Hpose as [-> Hlow].
    simpl in Hfill, Hlow. injection Hfill as <- <-.
    split; [|done].
    apply Forall_forall. intros bbox Hin score Hscore Hzero.
    assert (bbox ∈ bd_bbox <$> kept) as Hkin.
    { rewrite Hkept. apply list_elem_of_In, filter_In.
      split; [by apply list_elem_of_In|].
      unfold score_positive. by rewrite Hscore. }
    apply list_elem_of_fmap in Hkin as (bd & -> & Hbd).
    destruct (proj1 (Forall_forall _ _) Hlow bd Hbd) as (score' & H4 & Hthr).
    rewrite Hscore in H4. by injection H4 as <-.
  - apply infer_array_frame_Ok in Hf. rewrite Hpos in Hf.
    destruct Hf as [-> ->]. split; [|done].
    apply Forall_forall. intros bbox Hin score Hscore Hzero.
    unfold has_positive_score in Hpos.
    assert (existsb score_positive bboxes = true) as Hex; [|congruence].
    apply existsb_exists. exists bbox. split.
    + by apply list_elem_of_In.
    + unfold score_positive. by rewrite Hscore.
Qed.

(** ** What infer_array reads of bbox_list *)

(** X10. [infer_array] reads the entries of [bbox_list] at the indices of
    the frames only: bboxes given beyond the last frame change neither
    the result nor the exception. *)
Theorem infer_array_ignores_extra_bboxes self image_array bbox_list
    disable_tqdm return_heatmap :
  infer_array self image_array bbox_list disable_tqdm return_heatmap
  = infer_array self image_array (take (length image_array) bbox_list)
      disable_tqdm return_heatmap.
Proof.
  unfold Mediapipe.infer_array.
  rewrite <- (drop_0 bbox_list) at 2.
  by rewrite infer_array_loop_slice by (simpl; lia).
Qed.

(** X11. [infer_array] returns only if [bbox_list] has an entry for every
    frame and every bbox of these entries has at least five values. *)
Theorem infer_array_needs_bboxes self image_array bbox_list
    disable_tqdm return_heatmap ret_kps hm ret_bbox :
  infer_array self image_array bbox_list disable_tqdm return_heatmap
  = Ok (ret_kps, hm, ret_bbox) →
  (length image_array ≤ length bbox_list)%nat
  ∧ Forall (Forall (λ bbox : list float, (5 ≤ length bbox)%nat))
           (take (length image_array) bbox_list).
Proof.
  unfold Mediapipe.infer_array. intros H.
  apply bind_Ok in H as ([k b] & Hloop & _).
  apply infer_array_loop_Ok in Hloop as (frames & _ & _ & _ & Hall).
  assert (∀ i, (i < length image_array)%nat →
            ∃ bboxes, bbox_list !! i = Some bboxes
                      ∧ Forall (λ bbox : list float, (5 ≤ length bbox)%nat)
                               bboxes) as Hframes.
  { intros i Hi.
    destruct (lookup_lt_is_Some_2 image_array i Hi) as [img_arr Himg].
    destruct (Hall i img_arr Himg) as (bboxes & [fk fb] & Hb & Hf & _).
    simpl in Hb. exists bboxes. split; [done|].
    unfold Mediapipe.infer_array_frame in Hf.
    apply bind_Ok in Hf as (bif & Hsel & _).
    destruct (select_bboxes_filter _ _ _ _ Hsel) as (_ & _ & _ & H5).
    eapply Forall_impl; [exact H5|]. intros bbox [score Hscore]. simpl.
    apply lookup_lt_Some in Hscore. lia. }
  split.
  - destruct (Nat.le_gt_cases (length image_array) (length bbox_list))
      as [?|Hgt]; [done|].
    destruct (Hframes (length bbox_list) Hgt) as (bboxes & Hb & _).
    apply lookup_lt_Some in Hb. lia.
  - apply Forall_lookup_2. intros i bboxes Hi.
    pose proof (lookup_lt_Some _ _ _ Hi) as Hlt.
    rewrite length_take in Hlt.
    rewrite lookup_take_lt in Hi by lia.
    destruct (Hframes i) as (bboxes' & Hb & H5); [lia|].
    rewrite Hi in Hb. by injection Hb as <-.
Qed.

(** ** The crop and the scale of the keypoints *)

Lemma crop_shape img_arr r0 r1 c0 c1 :
  im_width (crop img_arr r0 r1 c0 c1)
  = Z.to_nat (clamp (Z.of_nat (im_width img_arr)) c1
              - clamp (Z.of_nat (im_width img_arr)) c0)
  ∧ im_height (crop img_arr r0 r1 c0 c1)
    = Z.to_nat (clamp (Z.of_nat (im_height img_arr)) r1
                - clamp (Z.of_nat (im_height img_arr)) r0).
Proof.
  split; [done|].
  unfold im_height, crop, slice, slice_len, slice_start, clamp. simpl.
  rewrite length_fmap, length_take, length_drop.
  destruct (Z.ltb_spec r0 0), (Z.ltb_spec r1 0); lia.
Qed.

(** The keypoints a bbox above the threshold gets on an image that was
    read, with the shape of the crop written as the code computes it. *)
Lemma infer_single_img_body_scaled self a bbox_dict x0 y0 x1 y1 score
    r0 r1 c0 c1 entry :
  bd_bbox bbox_dict = [x0; y0; x1; y1; score] →
  PrimFloat.ltb (bbox_thr self) score = true →
  int_of_float y0 = Ok r0 → int_of_float y1 = Ok r1 →
  int_of_float x0 = Ok c0 → int_of_float x1 = Ok c1 →
  infer_single_img_body self (Some a) bbox_dict = Ok entry →
  ∃ rgb result_mp,
    cvtColor_BGR2RGB (crop a r0 r1 c0 c1) = Ok rgb
    ∧ pose_model self rgb = Ok result_mp
    ∧ entry
      = (λ pose_landmarks,
           {| pd_bbox := [x0; y0; x1; y1; score];
              pd_keypoints :=
                (λ landmark,
                   [ (lm_x landmark
                      * float_of_nat
                          (Z.to_nat (clamp (Z.of_nat (im_width a)) c1
                                     - clamp (Z.of_nat (im_width a)) c0))
                      + x0)%float;
                     (lm_y landmark
                      * float_of_nat
                          (Z.to_nat (clamp (Z.of_nat (im_height a)) r1
                                     - clamp (Z.of_nat (im_height a)) r0))
                      + y0)%float;
                     lm_visibility landmark ]) <$> pose_landmarks |})
        <$> result_mp.
Proof.
  intros Hbbox Hthr Hr0 Hr1 Hc0 Hc1 H.
  apply infer_single_img_body_spec in H as (score' & Hscore & H).
  rewrite Hbbox in Hscore, H. injection Hscore as <-. rewrite Hthr in H.
  destruct H as (x0' & y0' & x1' & y1' & a' & r0' & r1' & c0' & c1' & rgb
                 & result_mp & [= <-] & [= <-] & [= <-] & [= <-] & [= <-]
                 & Hr0' & Hr1' & Hc0' & Hc1' & Hrgb & Hmp & ->).
  rewrite Hr0 in Hr0'. rewrite Hr1 in Hr1'. rewrite Hc0 in Hc0'.
  rewrite Hc1 in Hc1'. injection Hr0' as <-. injection Hr1' as <-.
  injection Hc0' as <-. injection Hc1' as <-.
  exists rgb, result_mp. repeat split; [done | done |].
  destruct (crop_shape a r0 r1 c0 c1) as [-> ->]. done.
Qed.

(** X12. For a bbox whose truncated corners lie inside the image, the
    keypoints are the landmarks scaled by the truncated size of the bbox,
    (int(x1) - int(x0), int(y1) - int(y0)), and shifted by the corner
    (x0, y0) as given, not truncated. *)
Theorem infer_single_img_body_inside self a bbox_dict x0 y0 x1 y1 score
    r0 r1 c0 c1 entry :
  bd_bbox bbox_dict = [x0; y0; x1; y1; score] →
  PrimFloat.ltb (bbox_thr self) score = true →
  int_of_float y0 = Ok r0 → int_of_float y1 = Ok r1 →
  int_of_float x0 = Ok c0 → int_of_float x1 = Ok c1 →
  0 ≤ c0 ≤ c1 → c1 ≤ Z.of_nat (im_width a) →
  0 ≤ r0 ≤ r1 → r1 ≤ Z.of_nat (im_height a) →
  infer_single_img_body self (Some a) bbox_dict = Ok entry →
  ∃ rgb result_mp,
    cvtColor_BGR2RGB (crop a r0 r1 c0 c1) = Ok rgb
    ∧ pose_model self rgb = Ok result_mp
    ∧ entry
      = (λ pose_landmarks,
           {| pd_bbox := [x0; y0; x1; y1; score];
              pd_keypoints :=
                (λ landmark,
                   [ (lm_x landmark * float_of_nat (Z.to_nat (c1 - c0))
                      + x0)%float;
                     (lm_y landmark * float_of_nat (Z.to_nat (r1 - r0))
                      + y0)%float;
                     lm_visibility landmark ]) <$> pose_landmarks |})
        <$> result_mp.
Proof.
  intros Hbbox Hthr Hr0 Hr1 Hc0 Hc1 Hc Hcw Hr Hrh H.
  destruct (infer_single_img_body_scaled _ _ _ _ _ _ _ _ _ _ _ _ _
              Hbbox Hthr Hr0 Hr1 Hc0 Hc1 H)
    as (rgb & result_mp & Hrgb & Hmp & ->).
  exists rgb, result_mp. repeat split; [done | done |].
  unfold clamp.
  destruct (Z.ltb_spec c0 0), (Z.ltb_spec c1 0), (Z.ltb_spec r0 0),
    (Z.ltb_spec r1 0); try lia.
  by rewrite !Z.min_l by lia.
Qed.


End EstimatorFacts.

(** ** The estimator on the fixture *)

Lemma fixture_infer_array :
  Mediapipe.infer_array Fixture.cvtColor Fixture.keypoint_num
    Fixture.estimator Fixture.frames Fixture.bboxes false false
  = Ok Fixture.inferred.
Proof. vm_compute. reflexivity. Qed.

Lemma infer_array_shapes_witness :
  ∃ fk fb,
    Fixture.inferred.1.1 !! 0%nat = Some fk
    ∧ Fixture.inferred.2 !! 0%nat = Some fb
    ∧ length fk = 3%nat
    ∧ Forall (λ person, length person = 33%nat
                        ∧ Forall (λ kp, length kp = 3%nat) person) fk
    ∧ length fb = 3%nat
    ∧ Forall (λ bbox, length bbox = 5%nat) fb.
Proof.
  destruct (infer_array_shapes Fixture.cvtColor Fixture.keypoint_num
              Fixture.pose 0.5%float Fixture.frames Fixture.bboxes
              false false _ _ _ fixture_infer_array) as (_ & _ & H).
  destruct (H 0%nat _ (le_S _ _ (le_n _)) eq_refl)
    as (fk & fb & Hk & Hb & Hshape).
  exists fk, fb. exact (conj Hk (conj Hb Hshape)).
Defined.

Lemma infer_array_undetected_rows_zero_witness :
  ∃ fk fb,
    Fixture.inferred.1.1 !! 0%nat = Some fk
    ∧ Fixture.inferred.2 !! 0%nat = Some fb
    ∧ fk !! 2%nat = Some (replicate 33 [0; 0; 0]%float)
    ∧ fb !! 2%nat = Some [0; 0; 0; 0; 0]%float.
Proof.
  destruct (infer_array_undetected_rows_zero Fixture.cvtColor
              Fixture.keypoint_num Fixture.estimator Fixture.frames
              Fixture.bboxes false false _ _ _ fixture_infer_array
              0%nat _ (le_S _ _ (le_n _)) eq_refl eq_refl)
    as (img_arr & bif & pose_results & fk & fb
        & Himg & Hsel & Hpose & Hk & Hb & Hzero).
  injection Himg as <-. vm_compute in Hsel. injection Hsel as <-.
  vm_compute in Hpose. injection Hpose as <-.
  destruct (Hzero 2%nat) as (Hkz & _ & Hbz); [simpl; lia|].
  exists fk, fb. exact (conj Hk (conj Hb (conj Hkz Hbz))).
Defined.

Example fixture_infer_video :
  ∃ k b,
    Mediapipe.infer_video Fixture.cvtColor Fixture.video_to_array
      Fixture.keypoint_num Fixture.estimator "clip.mp4" Fixture.bboxes
      false true = Ok (k, None, b).
Proof. vm_compute. eauto. Qed.

Example fixture_infer_single_img :
  Mediapipe.infer_single_img Fixture.cvtColor Fixture.estimator
    (Some Fixture.image)
    [ {| Mediapipe.bd_bbox := [1; 0; 5; 4; 0.75]%float;
         Mediapipe.bd_id := 0 |};
      {| Mediapipe.bd_bbox := [0; 1; 6; 2; 0.75]%float;
         Mediapipe.bd_id := 1 |};
      {| Mediapipe.bd_bbox := [0; 0; 6; 4; 0.25]%float;
         Mediapipe.bd_id := 2 |} ]
  = Ok [ {| Mediapipe.pd_bbox := [1; 0; 5; 4; 0.75]%float;
            Mediapipe.pd_keypoints := replicate 33 [3; 1; 1]%float |} ].
Proof. vm_compute. reflexivity. Qed.

(** ** __getitem__ *)

Section DatasetFacts.

Context (len : Dataset.dataset → Z)
        (process_index_mapping :
           Dataset.dataset → Z → result (Z * Z * bool))
        (img_pipeline : string → result Dataset.tensor)
        (convert_bottom_up_kps_paf :
           Dataset.json → Dataset.json → string → bool
           → io (gmap nat Dataset.ndarray) (list Dataset.detection))
        (fs : gmap string string)
        (json_load : string → result Dataset.json).

Import Dataset.

Local Abbreviation __getitem__ :=
  (Dataset.__getitem__ len process_index_mapping img_pipeline).
Local Abbreviation load_view :=
  (Dataset.load_view convert_bottom_up_kps_paf).
Local Abbreviation view_loop :=
  (Dataset.view_loop convert_bottom_up_kps_paf).
Local Abbreviation load_scene :=
  (Dataset.load_scene convert_bottom_up_kps_paf fs json_load).
Local Abbreviation scene_loop :=
  (Dataset.scene_loop convert_bottom_up_kps_paf fs json_load).
Local Abbreviation load_perception_2d :=
  (Dataset.load_perception_2d convert_bottom_up_kps_paf fs json_load).
Local Abbreviation open_and_load := (Dataset.open_and_load fs json_load).

Lemma torch_stack_Ok ts t :
  torch_stack ts = Ok t →
  ∃ t0, head ts = Some t0 ∧ shape t = length ts :: shape t0.
Proof.
  unfold torch_stack. destruct ts as [|t0 ts]; [done|].
  destruct (forallb _ _); [|done]. intros [= <-]. by exists t0.
Qed.

Lemma camera_loop_Ok self cams k_list r_list t_list k_list' r_list' t_list' :
  camera_loop self cams k_list r_list t_list = Ok (k_list', r_list', t_list') →
  ∃ ts, t_list' = t_list ++ ts
        ∧ Forall2 (λ cam t, torch_tensor (get_extrinsic_t cam) = Ok t) cams ts.
Proof.
  revert k_list r_list t_list.
  induction cams as [|cam cams IH]; intros k_list r_list t_list; simpl.
  - intros [= <- <- <-]. exists []. split; [by rewrite app_nil_r | constructor].
  - intros H. apply bind_Ok in H as (k & _ & H).
    apply bind_Ok in H as (r & _ & H). apply bind_Ok in H as (t & Ht & H).
    apply IH in H as (ts & -> & HF). exists (t :: ts).
    split; [by rewrite <- app_assoc | by constructor].
Qed.

(** Everything a successful [__getitem__] went through. *)
Lemma getitem_item_Ok self index out :
  __getitem__ self index = Ok out →
  index < len self
  ∧ ∃ scene_idx frame_idx last img_paths imgs cams ts views,
      process_index_mapping self index = Ok (scene_idx, frame_idx, last)
      ∧ getitem (image_list self) scene_idx
        ≫= (λ scene, getitem scene frame_idx) = Ok img_paths
      ∧ length imgs = length img_paths
      ∧ torch_stack imgs = Ok (mview_img_tensor out)
      ∧ getitem (fisheye_params self) scene_idx = Ok cams
      ∧ Forall2 (λ cam t, torch_tensor (get_extrinsic_t cam) = Ok t) cams ts
      ∧ torch_stack ts = Ok (t_tensor out)
      ∧ end_of_clip out = last && negb (shuffled self)
      ∧ match percep_keypoints2d self with
        | Some p => getitem p scene_idx
        | None => Raise TypeError
        end = Ok views
      ∧ Forall2 (λ view_idx detection,
                   getitem views (Z.of_nat view_idx)
                   ≫= (λ view, getitem view frame_idx) = Ok detection)
                (seq 0 (length img_paths)) (kw_data out).
Proof.
  unfold Dataset.__getitem__.
  destruct (Z.leb_spec (len self) index) as [?|Hlt]; [done|].
  intros H. split; [done|].
  apply bind_Ok in H as ([[scene_idx frame_idx] last] & Hpim & H).
  apply bind_Ok in H as (img_paths & Hpaths & H).
  apply bind_Ok in H as (imgs & Himgs & H).
  apply bind_Ok in H as (img_t & Hstack & H).
  apply bind_Ok in H as (cams & Hcams & H).
  apply bind_Ok in H as ([[k_list r_list] t_list] & Hloop & H).
  apply bind_Ok in H as (k_t & _ & H).
  apply bind_Ok in H as (r_t & _ & H).
  apply bind_Ok in H as (t_t & Ht & H).
  apply bind_Ok in H as (keypoints3d & _ & H).
  apply bind_Ok in H as (kps & _ & H).
  apply bind_Ok in H as (views & Hviews & H).
  apply bind_Ok in H as (n_view & Hn & H).
  apply bind_Ok in H as (kw & Hkw & H).
  injection H as <-. simpl.
  apply camera_loop_Ok in Hloop as (ts & -> & HF).
  apply mapM_Ok_Forall2 in Himgs. pose proof (Forall2_length _ _ _ Himgs) as Hl.
  destruct (torch_stack_Ok _ _ Hstack) as (t0 & _ & Hshape).
  rewrite Hshape in Hn. injection Hn as <-.
  apply mapM_Ok_Forall2 in Hkw. rewrite <- Hl in Hkw.
  exists scene_idx, frame_idx, last, img_paths, imgs, cams, ts, views.
  simpl in Ht. by repeat split.
Qed.

(** C1. Whenever [__getitem__] returns, its [end_of_clip] is true exactly
    when [process_index_mapping] flags the index as the last frame of its
    clip and the dataset is not shuffled; on a shuffled dataset it is
    false. *)
Theorem end_of_clip_iff_last_and_not_shuffled self index out :
  __getitem__ self index = Ok out →
  index < len self
  ∧ ∃ scene_idx frame_idx last,
      process_index_mapping self index = Ok (scene_idx, frame_idx, last)
      ∧ (end_of_clip out = true ↔ last = true ∧ shuffled self = false)
      ∧ (shuffled self = true → end_of_clip out = false).
Proof.
  intros (Hlt & scene_idx & frame_idx & last & img_paths & imgs & cams & ts
          & views & Hpim & _ & _ & _ & _ & _ & _ & Heoc
          & _)%getitem_item_Ok.
  split; [done|]. exists scene_idx, frame_idx, last. split; [done|].
  rewrite Heoc. destruct last, (shuffled self); simpl;
    (split; [split; [intros Hx | intros [Hx Hy]] | intros Hx]);
    done || (by split).
Qed.

(** C10. An index at or beyond [len(self)] raises [StopIteration].
    Whenever [__getitem__] returns, [kw_data] is a list with one detection
    record per view of the frame, the record of that view and frame in
    [percep_keypoints2d]; the number of views is that of the image paths of
    the frame. *)
Theorem kw_data_is_a_list_per_view self index :
  (len self ≤ index → __getitem__ self index = Raise StopIteration)
  ∧ ∀ out, __getitem__ self index = Ok out →
      ∃ scene_idx frame_idx last img_paths views,
        process_index_mapping self index = Ok (scene_idx, frame_idx, last)
        ∧ getitem (image_list self) scene_idx
          ≫= (λ scene, getitem scene frame_idx) = Ok img_paths
        ∧ shape (mview_img_tensor out) !! 0%nat = Some (length img_paths)
        ∧ length (kw_data out) = length img_paths
        ∧ match percep_keypoints2d self with
          | Some p => getitem p scene_idx
          | None => Raise TypeError
          end = Ok views
        ∧ ∀ view_idx detection,
            kw_data out !! view_idx = Some detection →
            getitem views (Z.of_nat view_idx)
            ≫= (λ view, getitem view frame_idx) = Ok detection.
Proof.
  split.
  - intros Hge. unfold Dataset.__getitem__.
    by destruct (Z.leb_spec (len self) index); [|lia].
  - intros out (_ & scene_idx & frame_idx & last & img_paths & imgs & cams
                & ts & views & Hpim & Hpaths & Hl & Hstack & _ & _ & _ & _
                & Hviews & Hkw)%getitem_item_Ok.
    exists scene_idx, frame_idx, last, img_paths, views.
    repeat split; [done | done | | | done |].
    + destruct (torch_stack_Ok _ _ Hstack) as (t0 & _ & ->). simpl.
      by rewrite Hl.
    + rewrite <- (Forall2_length _ _ _ Hkw). by rewrite length_seq.
    + intros view_idx detection Hd.
      destruct (Forall2_lookup_r _ _ _ _ _ Hkw Hd) as (v & Hv & Hget).
      apply lookup_seq in Hv as [-> _]. done.
Qed.



(** ** The resize step of load_perception_2d *)

Lemma io_bind_run {S A B} (m : io S A) (f : A → io S B) (s : S) :
  (m ≫= f) s
  = match m s with
    | (Ok a, s') => f a s'
    | (Raise e, s') => (Raise e, s')
    end.
Proof. reflexivity. Qed.

Lemma for_each_app {S A} (l1 l2 : list A) (body : A → io S unit) (s : S) :
  for_each (l1 ++ l2) body s = (_ ← for_each l1 body; for_each l2 body) s.
Proof.
  revert s. induction l1 as [|x l1 IH]; intros s; simpl; [done|].
  rewrite !io_bind_run.
  destruct (body x s) as [[[]|e] s']; [|done].
  by rewrite IH, io_bind_run.
Qed.

Lemma for_each_concat {S A} (ls : list (list A)) (body : A → io S unit)
    (s : S) :
  for_each (concat ls) body s = for_each ls (λ l, for_each l body) s.
Proof.
  revert s. induction ls as [|l ls IH]; intros s; simpl; [done|].
  rewrite for_each_app, !io_bind_run.
  destruct (for_each l body s) as [[[]|e] s']; [apply IH | done].
Qed.

(** A loop over the indices of a list is a loop over its elements. *)
Lemma for_each_indices {S A} (pre l post : list A) (body : A → io S unit)
    (s : S) :
  for_each (seq (length pre) (length l))
    (λ i, x ← lift (getitem (pre ++ l ++ post) (Z.of_nat i)); body x) s
  = for_each l body s.
Proof.
  revert pre s. induction l as [|x l IH]; intros pre s; simpl; [done|].
  rewrite !io_bind_run. unfold lift at 1. rewrite getitem_nat.
  rewrite lookup_app_r, Nat.sub_diag by done. simpl.
  destruct (body x s) as [[[]|e] s']; [|done].
  specialize (IH (pre ++ [x]) s').
  rewrite length_app, Nat.add_1_r, <- app_assoc in IH. apply IH.
Qed.

Lemma resize_flat img_size n_frame convert_detections h :
  (n_frame ≤ length convert_detections)%nat →
  resize img_size n_frame convert_detections h
  = for_each (joint_refs n_frame convert_detections)
      (resize_joint img_size) h.
Proof.
  intros Hn. unfold resize, joint_refs.
  rewrite for_each_concat.
  pose proof (for_each_indices [] (take n_frame convert_detections)
                (drop n_frame convert_detections)
                (λ detection,
                   for_each (seq 0 (length (joints detection)))
                     (λ joint_id,
                        joint ← lift (getitem (joints detection)
                                        (Z.of_nat joint_id));
                        resize_joint img_size joint)) h) as Hout.
  simpl in Hout. rewrite take_drop, length_take_le in Hout by done.
  rewrite Hout. clear Hout.
  induction (take n_frame convert_detections) as [|d ds IH] in h |- *;
    simpl; [done|].
  rewrite !io_bind_run.
  pose proof (for_each_indices [] (joints d) [] (resize_joint img_size) h)
    as Hin.
  simpl in Hin. rewrite app_nil_r in Hin. rewrite Hin.
  destruct (for_each (joints d) _ h) as [[[]|e] h']; [apply IH | done].
Qed.

Lemma scale_columns_scaled_xy kx ky ncols rows :
  (2 ≤ ncols)%nat →
  scale_column 0 kx (Arr2 ncols rows) ≫= scale_column 1 ky
  = Ok (scaled_xy kx ky (Arr2 ncols rows)).
Proof.
  intros Hc. unfold scale_column. simpl.
  destruct (Nat.ltb_spec 0 ncols) as [_|?]; [|lia]. simpl.
  destruct (Nat.ltb_spec 1 ncols) as [_|?]; [|lia].
  rewrite <- list_fmap_compose. do 2 f_equal.
  apply list_fmap_ext. intros _ row _. simpl.
  by destruct row as [|x [|y others]].
Qed.

Lemma scaled_xy_shape kx ky a : nd_shape (scaled_xy kx ky a) = nd_shape a.
Proof. destruct a; simpl; [done|]. by rewrite length_fmap. Qed.

Lemma resize_joint_run img_size joint h a :
  h !! joint = Some a →
  (nd_len a = 0%nat ∨ ∃ ncols rows, a = Arr2 ncols rows ∧ (2 ≤ ncols)%nat) →
  resize_joint img_size joint h
  = (Ok tt,
     if (0 <? nd_len a)%nat
     then <[joint := scaled_xy (float_of_Z (img_size.1 - 1))
                       (float_of_Z (img_size.2 - 1)) a]> h
     else h).
Proof.
  intros Hj Ha. unfold resize_joint.
  rewrite io_bind_run. unfold get at 1.
  rewrite io_bind_run. unfold lift at 1. rewrite Hj.
  destruct (Nat.ltb_spec 0 (nd_len a)) as [Hpos|Hzero]; [|done].
  destruct Ha as [?|(ncols & rows & -> & Hc)]; [lia|].
  pose proof (scale_columns_scaled_xy (float_of_Z (img_size.1 - 1))
                (float_of_Z (img_size.2 - 1)) ncols rows Hc) as Hs.
  rewrite io_bind_run. unfold lift at 1.
  destruct (scale_column 0 _ _) as [a0|] eqn:H0; [|done].
  simpl in Hs. rewrite io_bind_run. unfold modify at 1.
  rewrite io_bind_run. unfold lift at 1. rewrite Hs.
  unfold modify. by rewrite insert_insert_eq.
Qed.

Lemma for_each_resize_joint img_size refs h :
  (∀ r, r ∈ refs →
        ∃ a, h !! r = Some a
             ∧ (nd_len a = 0%nat
                ∨ ∃ ncols rows, a = Arr2 ncols rows ∧ (2 ≤ ncols)%nat)) →
  (∀ i j r a, refs !! i = Some r → refs !! j = Some r →
              h !! r = Some a → nd_len a ≠ 0%nat → i = j) →
  ∃ h', for_each refs (resize_joint img_size) h = (Ok tt, h')
        ∧ (∀ r a, r ∈ refs → h !! r = Some a →
                  h' !! r
                  = Some (if (0 <? nd_len a)%nat
                          then scaled_xy (float_of_Z (img_size.1 - 1))
                                 (float_of_Z (img_size.2 - 1)) a
                          else a))
        ∧ (∀ r, r ∉ refs → h' !! r = h !! r).
Proof.
  revert h. induction refs as [|r refs IH]; intros h Hok Hshare; simpl.
  { exists h. split; [done|]. split; [|done].
    intros r a Hr. by apply elem_of_nil in Hr. }
  destruct (Hok r) as (a & Hra & Ha); [by left|].
  rewrite io_bind_run, (resize_joint_run _ _ _ a Hra Ha).
  destruct (Nat.ltb_spec 0 (nd_len a)) as [Hpos|Hzero].
  - assert (r ∉ refs) as Hfresh.
    { intros (j & Hj)%list_elem_of_lookup.
      by specialize (Hshare 0%nat (S j) r a eq_refl Hj Hra ltac:(lia)). }
    set (sa := scaled_xy _ _ a).
    destruct (IH (<[r := sa]> h)) as (h' & Hrun & Hin & Hout).
    + intros r' Hr'. rewrite lookup_insert_ne by set_solver.
      apply Hok. by right.
    + intros i j r' a' Hi Hj Hr' Hne.
      assert (r' ≠ r) as Hneq
        by (intros ->; apply Hfresh; by eapply list_elem_of_lookup_2).
      rewrite lookup_insert_ne in Hr' by done.
      by specialize (Hshare (S i) (S j) r' a' Hi Hj Hr' Hne) as [= ->].
    + exists h'. repeat split; [done | |].
      * intros r0 a0 [->|Hr0]%elem_of_cons Hlook.
        -- rewrite Hout by done. rewrite lookup_insert_eq.
           rewrite Hra in Hlook. injection Hlook as <-.
           by destruct (Nat.ltb_spec 0 (nd_len a)); [|lia].
        -- apply Hin; [done|]. rewrite lookup_insert_ne; [done|].
           by intros ->.
      * intros r0 Hr0. rewrite Hout by set_solver.
        apply lookup_insert_ne. set_solver.
  - destruct (IH h) as (h' & Hrun & Hin & Hout).
    + intros r' Hr'. apply Hok. by right.
    + intros i j r' a' Hi Hj Hr' Hne.
      by specialize (Hshare (S i) (S j) r' a' Hi Hj Hr' Hne) as [= ->].
    + exists h'. repeat split; [done | |].
      * intros r0 a0 Hr0 Hlook.
        destruct (decide (r0 ∈ refs)) as [Hin0|Hnin]; [by apply Hin|].
        apply elem_of_cons in Hr0 as [->|?]; [|done].
        rewrite Hout by done. rewrite Hra in Hlook. injection Hlook as <-.
        rewrite Hra. by destruct (Nat.ltb_spec 0 (nd_len a)); [lia|].
      * intros r0 Hr0. apply Hout. set_solver.
Qed.

(** The two resize loops on their own, for any image size and number of
    frames: on records whose visited joint arrays are in the store, are
    empty or have two dimensions and at least two columns, and of which no
    non-empty one is held twice, they return and scale columns 0 and 1 of
    the visited non-empty joint arrays only. *)
Lemma resize_scales_xy_only (img_size : Z * Z) n_frame
    convert_detections (h : gmap nat ndarray) :
  let refs := joint_refs n_frame convert_detections in
  let kx := float_of_Z (img_size.1 - 1) in
  let ky := float_of_Z (img_size.2 - 1) in
  (n_frame ≤ length convert_detections)%nat →
  (∀ r, r ∈ refs →
        ∃ a, h !! r = Some a
             ∧ (nd_len a = 0%nat
                ∨ ∃ ncols rows, a = Arr2 ncols rows ∧ (2 ≤ ncols)%nat)) →
  (∀ i j r a, refs !! i = Some r → refs !! j = Some r →
              h !! r = Some a → nd_len a ≠ 0%nat → i = j) →
  (∀ d paf, d ∈ convert_detections → paf ∈ pafs d → paf ∉ refs) →
  ∃ h', resize img_size n_frame convert_detections h = (Ok tt, h')
        ∧ (∀ r a, r ∈ refs → h !! r = Some a →
                  h' !! r = Some (if (0 <? nd_len a)%nat
                                  then scaled_xy kx ky a else a))
        ∧ (∀ r, r ∉ refs → h' !! r = h !! r)
        ∧ (∀ d paf, d ∈ convert_detections → paf ∈ pafs d →
                    h' !! paf = h !! paf)
        ∧ (∀ r a a', h !! r = Some a → h' !! r = Some a' →
                     nd_shape a' = nd_shape a).
Proof.
  intros refs kx ky Hn Hok Hshare Hpaf.
  destruct (for_each_resize_joint img_size refs h Hok Hshare)
    as (h' & Hrun & Hin & Hout).
  exists h'. rewrite resize_flat by done.
  repeat split; [done | done | done | |].
  - intros d paf Hd Hp. apply Hout. by eapply Hpaf.
  - intros r a a' Hr Hr'.
    destruct (decide (r ∈ refs)) as [Hin0|Hnin].
    + rewrite (Hin r a Hin0 Hr) in Hr'. injection Hr' as <-.
      destruct (0 <? nd_len a)%nat; [apply scaled_xy_shape | done].
    + rewrite Hout, Hr in Hr' by done. by injection Hr' as <-.
Qed.



(** ** load_perception_2d *)

Lemma keeps_ret {S A} (P : S → S → Prop) (a : A) :
  (∀ s, P s s) → keeps P (mret a : io S A).
Proof. intros Hrefl s r s' [= _ <-]. apply Hrefl. Qed.

Lemma keeps_lift {S A} (P : S → S → Prop) (r : result A) :
  (∀ s, P s s) → keeps P (lift r : io S A).
Proof. intros Hrefl s r' s' [= _ <-]. apply Hrefl. Qed.

Lemma keeps_get {S} (P : S → S → Prop) :
  (∀ s, P s s) → keeps P (get : io S S).
Proof. intros Hrefl s r' s' [= _ <-]. apply Hrefl. Qed.

Lemma keeps_bind {S A B} (P : S → S → Prop) (m : io S A) (f : A → io S B) :
  (∀ s1 s2 s3, P s1 s2 → P s2 s3 → P s1 s3) →
  keeps P m → (∀ a, keeps P (f a)) → keeps P (m ≫= f).
Proof.
  intros Htrans Hm Hf s r s'. rewrite io_bind_run.
  destruct (m s) as [[a|e] s1] eqn:Hrun.
  - intros Hfa. eapply Htrans; [by eapply Hm | by eapply Hf].
  - intros [= <- <-]. by eapply Hm.
Qed.

Lemma keeps_on_heap {A} (P : world → world → Prop)
    (m : io (gmap nat ndarray) A) :
  (∀ w h, P w (with_heap h w)) → keeps P (on_heap m).
Proof.
  intros HP w r w'. unfold on_heap.
  destruct (m (heap w)) as [r1 h]. intros [= <- <-]. apply HP.
Qed.

(** The relation that the view loop keeps: the dataset object and the log
    of opened files stay as they are. *)
Local Abbreviation same_self_and_files :=
  (λ w w' : world, self_ w' = self_ w ∧ opened w' = opened w).

Lemma same_self_and_files_refl w : same_self_and_files w w.
Proof. done. Qed.

Lemma same_self_and_files_trans w1 w2 w3 :
  same_self_and_files w1 w2 → same_self_and_files w2 w3 →
  same_self_and_files w1 w3.
Proof. intros [H12 H12'] [H23 H23']. by rewrite H23, H23'. Qed.

Lemma load_view_keeps scene_idx src_convention multi_detections view_idx :
  keeps same_self_and_files
    (load_view scene_idx src_convention multi_detections view_idx).
Proof.
  unfold Dataset.load_view.
  apply keeps_bind;
    [apply same_self_and_files_trans
    | apply keeps_get, same_self_and_files_refl | intros w0].
  repeat (apply keeps_bind;
          [apply same_self_and_files_trans
          | first [apply keeps_lift, same_self_and_files_refl
                  | apply keeps_on_heap; by intros ??]
          | intros ?]).
  apply keeps_ret, same_self_and_files_refl.
Qed.

Lemma view_loop_keeps scene_idx src_convention multi_detections views acc :
  keeps same_self_and_files
    (view_loop scene_idx src_convention multi_detections views acc).
Proof.
  revert acc. induction views as [|v views IH]; intros acc; simpl.
  - apply keeps_ret, same_self_and_files_refl.
  - apply keeps_bind;
      [apply same_self_and_files_trans | apply load_view_keeps
      | intros ?; apply IH].
Qed.

(** What one pass of the scene loop does, step by step. *)
Lemma load_scene_run scene_idx w :
  let file := scene_file (meta_path (self_ w)) scene_idx in
  load_scene scene_idx w
  = match fs !! file with
    | None => (Raise FileNotFoundError, w)
    | Some content =>
        let w1 := with_opened file w in
        match json_load content with
        | Raise e => (Raise e, w1)
        | Ok json_data =>
            match json_getitem_str json_data "convention" with
            | Raise e => (Raise e, w1)
            | Ok src_convention =>
                match json_getitem_str json_data "data" with
                | Raise e => (Raise e, w1)
                | Ok multi_detections =>
                    match json_len multi_detections with
                    | Raise e => (Raise e, w1)
                    | Ok n =>
                        view_loop scene_idx src_convention multi_detections
                          (seq 0 n) [] (with_self (set_n_views n) w1)
                    end
                end
            end
        end
    end.
Proof.
  intros file.
  unfold Dataset.load_scene, Dataset.open_and_load, lift, get, modify.
  rewrite !io_bind_run. fold file.
  destruct (fs !! file) as [content|]; [|done]. simpl.
  destruct (json_load content) as [json_data|]; [|done].
  rewrite io_bind_run.
  destruct (json_getitem_str json_data "convention"); [|done].
  rewrite io_bind_run.
  destruct (json_getitem_str json_data "data") as [md|]; [|done].
  rewrite io_bind_run.
  destruct (json_len md); [|done].
  by rewrite io_bind_run.
Qed.

Lemma load_scene_frame scene_idx w r w' :
  load_scene scene_idx w = (r, w') →
  let file := scene_file (meta_path (self_ w)) scene_idx in
  forget_n_views (self_ w') = forget_n_views (self_ w)
  ∧ (∀ v, r = Ok v → opened w' = opened w ++ [file]).
Proof.
  rewrite load_scene_run. simpl.
  destruct (fs !! _) as [content|]; [|by intros [= <- <-]].
  destruct (json_load content) as [json_data|]; [|by intros [= <- <-]].
  destruct (json_getitem_str json_data "convention");
    [|by intros [= <- <-]].
  destruct (json_getitem_str json_data "data") as [md|];
    [|by intros [= <- <-]].
  destruct (json_len md) as [n|]; [|by intros [= <- <-]].
  intros [Hself Hopen]%view_loop_keeps. simpl in *.
  rewrite Hself, Hopen. done.
Qed.

Lemma scene_loop_frame scenes acc w r w' :
  scene_loop scenes acc w = (r, w') →
  forget_n_views (self_ w') = forget_n_views (self_ w)
  ∧ (∀ v, r = Ok v →
          opened w'
          = opened w ++ (scene_file (meta_path (self_ w)) <$> scenes)
          ∧ length v = (length acc + length scenes)%nat).
Proof.
  revert acc w. induction scenes as [|i scenes IH]; intros acc w; simpl.
  - intros [= <- <-]. split; [done|]. intros v [= <-].
    by rewrite app_nil_r, Nat.add_0_r.
  - rewrite io_bind_run.
    destruct (load_scene i w) as [[mview|e] w1] eqn:Hscene.
    + apply load_scene_frame in Hscene as [Hself Hopen].
      intros [Hself' Hres]%IH. split; [congruence|].
      intros v Hv. destruct (Hres v Hv) as [-> ->].
      rewrite (Hopen mview eq_refl), <- app_assoc, length_app. simpl.
      assert (meta_path (self_ w1) = meta_path (self_ w)) as ->
        by (by injection Hself).
      split; [done | lia].
    + intros [= <- <-]. by apply load_scene_frame in Hscene as [Hself _].
Qed.

Lemma scene_loop_app l1 l2 acc w :
  scene_loop (l1 ++ l2) acc w
  = match scene_loop l1 acc w with
    | (Ok acc', w1) => scene_loop l2 acc' w1
    | (Raise e, w1) => (Raise e, w1)
    end.
Proof.
  revert acc w. induction l1 as [|i l1 IH]; intros acc w; simpl; [done|].
  rewrite !io_bind_run.
  destruct (load_scene i w) as [[mview|e] w1]; [apply IH | done].
Qed.

Lemma load_scene_keys json_load' scene_idx w :
  (∀ content, keys_agree (json_load content) (json_load' content)) →
  Dataset.load_scene convert_bottom_up_kps_paf fs json_load' scene_idx w
  = load_scene scene_idx w.
Proof.
  intros Hagree.
  rewrite load_scene_run.
  unfold Dataset.load_scene, Dataset.open_and_load, lift, get, modify.
  rewrite !io_bind_run. simpl.
  destruct (fs !! _) as [content|]; [|done].
  specialize (Hagree content). unfold keys_agree in Hagree.
  destruct (json_load content) as [jd|e], (json_load' content) as [jd'|e'];
    try (by destruct jd); try (by destruct jd');
    [|by injection Hagree as <-].
  assert (json_getitem_str jd' "convention" = json_getitem_str jd "convention"
          ∧ json_getitem_str jd' "data" = json_getitem_str jd "data")
    as [Hc Hd].
  { destruct jd, jd'; try done; try (by injection Hagree as <-).
    destruct Hagree as [Hc Hd]. simpl. by rewrite Hc, Hd. }
  rewrite io_bind_run, Hc.
  destruct (json_getitem_str jd "convention"); [|done].
  rewrite io_bind_run, Hd.
  destruct (json_getitem_str jd "data") as [md|]; [|done].
  rewrite io_bind_run.
  destruct (json_len md); [|done].
  by rewrite io_bind_run.
Qed.

Lemma scene_loop_keys json_load' scenes acc w :
  (∀ content, keys_agree (json_load content) (json_load' content)) →
  Dataset.scene_loop convert_bottom_up_kps_paf fs json_load' scenes acc w
  = scene_loop scenes acc w.
Proof.
  intros Hagree. revert acc w.
  induction scenes as [|i scenes IH]; intros acc w; simpl; [done|].
  rewrite !io_bind_run, load_scene_keys by done.
  destruct (load_scene i w) as [[mview|e] w1]; [apply IH | done].
Qed.

(** C8. [load_perception_2d] opens, scene by scene, the files
    meta_path/scene_i/kps2d_paf.json and, when it returns, has set
    [percep_keypoints2d] to one entry per scene; of the parsed content only
    what stands under 'convention' and 'data' matters; when it raises,
    [percep_keypoints2d] is as before; and with the scenes before scene i
    loaded, a missing file of scene i makes it raise [FileNotFoundError]
    and an absent key [KeyError], with nothing done after the failure. *)
Theorem load_perception_2d_files_and_errors w :
  let self := self_ w in
  (∀ w', load_perception_2d w = (Ok tt, w') →
         opened w'
         = opened w ++ (scene_file (meta_path self) <$> seq 0 (n_scene self))
         ∧ ∃ p, percep_keypoints2d (self_ w') = Some p
                ∧ length p = n_scene self)
  ∧ (∀ json_load',
       (∀ content, keys_agree (json_load content) (json_load' content)) →
       Dataset.load_perception_2d convert_bottom_up_kps_paf fs json_load' w
       = load_perception_2d w)
  ∧ (∀ e w', load_perception_2d w = (Raise e, w') →
             percep_keypoints2d (self_ w') = percep_keypoints2d self)
  ∧ (∀ i acc w1,
       (i < n_scene self)%nat →
       scene_loop (seq 0 i) [] w = (Ok acc, w1) →
       let file := scene_file (meta_path self) i in
       (fs !! file = None →
        load_perception_2d w = (Raise FileNotFoundError, w1))
       ∧ (∀ content m,
            fs !! file = Some content →
            json_load content = Ok (JObj m) →
            dict_get m "convention" = None ∨ dict_get m "data" = None →
            load_perception_2d w = (Raise KeyError, with_opened file w1))).
Proof.
  intros self.
  assert (load_perception_2d w
          = match scene_loop (seq 0 (n_scene self)) [] w with
            | (Ok p, w1) => (Ok tt, with_self (set_percep_keypoints2d p) w1)
            | (Raise e, w1) => (Raise e, w1)
            end) as Hrun.
  { unfold Dataset.load_perception_2d, get, modify.
    rewrite !io_bind_run. fold self.
    by destruct (scene_loop _ _ w) as [[p|e] w1]. }
  assert (∀ i, (i < n_scene self)%nat →
               seq 0 (n_scene self)
               = seq 0 i ++ i :: seq (S i) (n_scene self - S i)) as Hseq.
  { intros i Hi.
    replace (n_scene self) with (i + S (n_scene self - S i))%nat at 1 by lia.
    by rewrite seq_app. }
  split; [|split; [|split]].
  - intros w' H. rewrite Hrun in H.
    destruct (scene_loop _ _ w) as [[p|e] w1] eqn:Hloop; [|done].
    injection H as <-.
    apply scene_loop_frame in Hloop as [_ Hres].
    destruct (Hres p eq_refl) as [Hopen Hlen]. split; [done|].
    exists p. split; [done|]. by rewrite Hlen, length_seq.
  - intros json_load' Hagree. rewrite Hrun.
    unfold Dataset.load_perception_2d, get, modify.
    rewrite !io_bind_run. fold self. rewrite scene_loop_keys by done.
    by destruct (scene_loop _ _ w) as [[p|e] w1].
  - intros e w' H. rewrite Hrun in H.
    destruct (scene_loop _ _ w) as [[p|e'] w1] eqn:Hloop; [done|].
    injection H as <- <-. apply scene_loop_frame in Hloop as [Hself _].
    by injection Hself.
  - intros i acc w1 Hi Hpre file.
    rewrite Hrun, (Hseq i Hi), scene_loop_app, Hpre. simpl.
    rewrite io_bind_run, load_scene_run.
    apply scene_loop_frame in Hpre as [Hself _].
    assert (meta_path (self_ w1) = meta_path self) as ->
      by (by injection Hself).
    fold file. simpl. split.
    + by intros ->.
    + intros content m -> ->. simpl.
      intros [->| ->]; [done|]. by destruct (dict_get m "convention").
Qed.

(** ** __getitem__: what a returned item needs *)

Lemma camera_loop_lengths self cams k_list r_list t_list
    k_list' r_list' t_list' :
  camera_loop self cams k_list r_list t_list = Ok (k_list', r_list', t_list') →
  length k_list' = (length k_list + length cams)%nat
  ∧ length r_list' = (length r_list + length cams)%nat
  ∧ length t_list' = (length t_list + length cams)%nat.
Proof.
  revert k_list r_list t_list.
  induction cams as [|cam cams IH]; intros k_list r_list t_list; simpl.
  - intros [= <- <- <-]. lia.
  - intros H. apply bind_Ok in H as (k & _ & H).
    apply bind_Ok in H as (r & _ & H). apply bind_Ok in H as (t & _ & H).
    apply IH in H as (-> & -> & ->). rewrite !length_app. simpl. lia.
Qed.

Lemma getitem_item_cameras self index out :
  __getitem__ self index = Ok out →
  ∃ scene_idx frame_idx last cams k_list r_list t_list,
    process_index_mapping self index = Ok (scene_idx, frame_idx, last)
    ∧ getitem (fisheye_params self) scene_idx = Ok cams
    ∧ camera_loop self cams [] [] [] = Ok (k_list, r_list, t_list)
    ∧ torch_stack k_list = Ok (k_tensor out)
    ∧ torch_stack r_list = Ok (r_tensor out)
    ∧ torch_stack t_list = Ok (t_tensor out).
Proof.
  unfold Dataset.__getitem__.
  destruct (Z.leb_spec (len self) index) as [?|Hlt]; [done|].
  intros H.
  apply bind_Ok in H as ([[scene_idx frame_idx] last] & Hpim & H).
  apply bind_Ok in H as (img_paths & _ & H).
  apply bind_Ok in H as (imgs & _ & H).
  apply bind_Ok in H as (img_t & _ & H).
  apply bind_Ok in H as (cams & Hcams & H).
  apply bind_Ok in H as ([[k_list r_list] t_list] & Hloop & H).
  apply bind_Ok in H as (k_t & Hk & H).
  apply bind_Ok in H as (r_t & Hr & H).
  apply bind_Ok in H as (t_t & Ht & H).
  apply bind_Ok in H as (keypoints3d & _ & H).
  apply bind_Ok in H as (kps & _ & H).
  apply bind_Ok in H as (views & _ & H).
  apply bind_Ok in H as (n_view & _ & H).
  apply bind_Ok in H as (kw & _ & H).
  injection H as <-. simpl.
  by exists scene_idx, frame_idx, last, cams, k_list, r_list, t_list.
Qed.

Lemma torch_stack_head ts t :
  torch_stack ts = Ok t →
  head (shape t) = Some (length ts) ∧ (0 < length ts)%nat.
Proof.
  intros (t0 & Hhd & ->)%torch_stack_Ok. split; [done|].
  destruct ts; [done | simpl; lia].
Qed.

(** X14. Whenever [__getitem__] returns, the frame has at least one image
    and the scene at least one camera; the image tensor has one entry per
    image path of the frame, and the tensors of intrinsics, rotations and
    translations have one entry per camera of the scene each. *)
Theorem getitem_leading_dimensions self index out :
  __getitem__ self index = Ok out →
  ∃ scene_idx frame_idx last img_paths cams,
    process_index_mapping self index = Ok (scene_idx, frame_idx, last)
    ∧ getitem (image_list self) scene_idx
      ≫= (λ scene, getitem scene frame_idx) = Ok img_paths
    ∧ getitem (fisheye_params self) scene_idx = Ok cams
    ∧ (0 < length img_paths)%nat ∧ (0 < length cams)%nat
    ∧ head (shape (mview_img_tensor out)) = Some (length img_paths)
    ∧ head (shape (k_tensor out)) = Some (length cams)
    ∧ head (shape (r_tensor out)) = Some (length cams)
    ∧ head (shape (t_tensor out)) = Some (length cams).
Proof.
  intros H.
  destruct (getitem_item_cameras _ _ _ H)
    as (scene_idx & frame_idx & last & cams & k_list & r_list & t_list
        & Hpim & Hcams & Hloop & Hk & Hr & Ht).
  destruct (getitem_item_Ok _ _ _ H)
    as (_ & scene_idx' & frame_idx' & last' & img_paths & imgs & cams' & ts
        & views & Hpim' & Hpaths & Hl & Hstack & _).
  rewrite Hpim in Hpim'. injection Hpim' as <- <- <-.
  apply camera_loop_lengths in Hloop as (Hlk & Hlr & Hlt). simpl in *.
  apply torch_stack_head in Hstack as [Hi Hipos].
  apply torch_stack_head in Hk as [Hk Hkpos].
  apply torch_stack_head in Hr as [Hr _].
  apply torch_stack_head in Ht as [Ht _].
  exists scene_idx, frame_idx, last, img_paths, cams.
  rewrite Hi, Hk, Hr, Ht, Hlk, Hlr, Hlt, Hl.
  repeat split; (done || lia).
Qed.

(** X15. [__getitem__] returns only on a dataset whose
    [percep_keypoints2d] has been set, and which holds for the scene of the
    index at least as many views as the frame has images. *)
Theorem getitem_needs_perception self index out :
  __getitem__ self index = Ok out →
  ∃ scene_idx frame_idx last img_paths p views,
    process_index_mapping self index = Ok (scene_idx, frame_idx, last)
    ∧ getitem (image_list self) scene_idx
      ≫= (λ scene, getitem scene frame_idx) = Ok img_paths
    ∧ percep_keypoints2d self = Some p
    ∧ getitem p scene_idx = Ok views
    ∧ (length img_paths ≤ length views)%nat.
Proof.
  intros (_ & scene_idx & frame_idx & last & img_paths & imgs & cams & ts
          & views & Hpim & Hpaths & _ & _ & _ & _ & _ & _ & Hviews
          & Hkw)%getitem_item_Ok.
  destruct (percep_keypoints2d self) as [p|]; [|done].
  exists scene_idx, frame_idx, last, img_paths, p, views.
  repeat split; [done | done | done |].
  destruct (length img_paths) as [|n] eqn:Hn; [lia|].
  assert (seq 0 (S n) !! n = Some n) as Hlast
    by (apply lookup_seq; lia).
  destruct (Forall2_lookup_l _ _ _ _ _ Hkw Hlast) as (d & _ & Hd).
  apply bind_Ok in Hd as (view & Hview & _).
  rewrite getitem_nat in Hview.
  destruct (views !! n) eqn:Hv; [|done].
  apply lookup_lt_Some in Hv. lia.
Qed.

(** ** load_perception_2d: the attributes it writes *)

Lemma load_perception_2d_run w :
  load_perception_2d w
  = match scene_loop (seq 0 (n_scene (self_ w))) [] w with
    | (Ok p, w1) => (Ok tt, with_self (set_percep_keypoints2d p) w1)
    | (Raise e, w1) => (Raise e, w1)
    end.
Proof.
  unfold Dataset.load_perception_2d, get, modify.
  rewrite !io_bind_run.
  by destruct (scene_loop _ _ w) as [[p|e] w1].
Qed.

Lemma view_loop_length scene_idx src_convention multi_detections views acc
    w v w' :
  view_loop scene_idx src_convention multi_detections views acc w
  = (Ok v, w') →
  length v = (length acc + length views)%nat.
Proof.
  revert acc w. induction views as [|view_idx views IH]; intros acc w; simpl.
  - intros [= <- <-]. lia.
  - rewrite io_bind_run.
    destruct (load_view _ _ _ _ w) as [[convs|e] w1]; [|done].
    intros ->%IH. rewrite length_app. simpl. lia.
Qed.

Lemma load_scene_n_views scene_idx w v w' :
  load_scene scene_idx w = (Ok v, w') →
  n_views (self_ w') = Some (length v).
Proof.
  rewrite load_scene_run. simpl.
  destruct (fs !! _) as [content|]; [|done].
  destruct (json_load content) as [json_data|]; [|done].
  destruct (json_getitem_str json_data "convention"); [|done].
  destruct (json_getitem_str json_data "data") as [md|]; [|done].
  destruct (json_len md) as [n|]; [|done].
  intros H. pose proof (view_loop_length _ _ _ _ _ _ _ _ H) as Hlen.
  apply view_loop_keeps in H as [-> _]. simpl.
  rewrite Hlen, length_seq. done.
Qed.

Lemma scene_loop_n_views scenes acc w p w' :
  scene_loop scenes acc w = (Ok p, w') →
  scenes ≠ [] →
  n_views (self_ w') = length <$> last p.
Proof.
  revert acc w. induction scenes as [|i scenes IH]; intros acc w; [done|].
  simpl. rewrite io_bind_run.
  destruct (load_scene i w) as [[mview|e] w1] eqn:Hscene; [|done].
  intros H _. destruct scenes as [|i' scenes].
  - simpl in H. injection H as <- <-. rewrite last_snoc. simpl.
    by apply load_scene_n_views in Hscene.
  - by apply IH in H.
Qed.

(** X16. When [load_perception_2d] returns, [n_views] is the number of
    views of the last scene loaded, whatever the other scenes have; with
    no scene at all it is left as it was and [percep_keypoints2d] is the
    empty list. *)
Theorem load_perception_2d_n_views w w' :
  load_perception_2d w = (Ok tt, w') →
  ∃ p, percep_keypoints2d (self_ w') = Some p
       ∧ match n_scene (self_ w) with
         | O => p = [] ∧ n_views (self_ w') = n_views (self_ w)
         | S _ => n_views (self_ w') = length <$> last p
         end.
Proof.
  rewrite load_perception_2d_run.
  destruct (scene_loop _ _ w) as [[p|e] w1] eqn:Hloop; [|done].
  intros [= <-]. exists p. split; [done|].
  destruct (n_scene (self_ w)) as [|n].
  - simpl in Hloop. by injection Hloop as <- <-.
  - simpl. by apply scene_loop_n_views in Hloop.
Qed.

(** X17. Whether it returns or raises, [load_perception_2d] leaves every
    attribute of the dataset other than [n_views] and [percep_keypoints2d]
    as it was. *)
Theorem load_perception_2d_keeps_attributes w r w' :
  load_perception_2d w = (r, w') →
  data_root (self_ w') = data_root (self_ w)
  ∧ meta_path (self_ w') = meta_path (self_ w)
  ∧ shuffled (self_ w') = shuffled (self_ w)
  ∧ kps2d_convention (self_ w') = kps2d_convention (self_ w)
  ∧ cam_k_dim (self_ w') = cam_k_dim (self_ w)
  ∧ n_scene (self_ w') = n_scene (self_ w)
  ∧ image_list (self_ w') = image_list (self_ w)
  ∧ fisheye_params (self_ w') = fisheye_params (self_ w)
  ∧ gt3d (self_ w') = gt3d (self_ w).
Proof.
  rewrite load_perception_2d_run.
  destruct (scene_loop _ _ w) as [[p|e] w1] eqn:Hloop;
    apply scene_loop_frame in Hloop as [Hself _];
    intros [= <- <-]; injection Hself; intros; simpl; by repeat split.
Qed.

(** ** load_perception_2d: what it reads *)

Lemma load_view_agree convert' scene_idx src_convention multi_detections
    view_idx w :
  (∀ detections src dst,
     convert' detections src dst true
     = convert_bottom_up_kps_paf detections src dst true) →
  Dataset.load_view convert' scene_idx src_convention multi_detections
    view_idx w
  = load_view scene_idx src_convention multi_detections view_idx w.
Proof.
  intros Hagree. unfold Dataset.load_view, get, lift, on_heap.
  rewrite !io_bind_run.
  destruct (getitem (fisheye_params (self_ w)) _ ≫= _) as [cam|]; [|done].
  rewrite !io_bind_run.
  destruct (json_getitem_int _ _) as [detections|]; [|done].
  by rewrite !io_bind_run, Hagree.
Qed.

Lemma view_loop_agree convert' scene_idx src_convention multi_detections
    views acc w :
  (∀ detections src dst,
     convert' detections src dst true
     = convert_bottom_up_kps_paf detections src dst true) →
  Dataset.view_loop convert' scene_idx src_convention multi_detections
    views acc w
  = view_loop scene_idx src_convention multi_detections views acc w.
Proof.
  intros Hagree. revert acc w.
  induction views as [|view_idx views IH]; intros acc w; simpl; [done|].
  rewrite !io_bind_run, load_view_agree by done.
  destruct (load_view _ _ _ _ w) as [[convs|e] w1]; [apply IH | done].
Qed.

Lemma load_scene_agree convert' fs' scene_idx w :
  (∀ detections src dst,
     convert' detections src dst true
     = convert_bottom_up_kps_paf detections src dst true) →
  fs' !! scene_file (meta_path (self_ w)) scene_idx
  = fs !! scene_file (meta_path (self_ w)) scene_idx →
  Dataset.load_scene convert' fs' json_load scene_idx w
  = load_scene scene_idx w.
Proof.
  intros Hagree Hfile.
  rewrite load_scene_run.
  unfold Dataset.load_scene, Dataset.open_and_load, lift, get, modify.
  rewrite !io_bind_run. simpl. rewrite Hfile.
  destruct (fs !! _) as [content|]; [|done].
  destruct (json_load content) as [jd|e]; [|done].
  rewrite io_bind_run.
  destruct (json_getitem_str jd "convention"); [|done].
  rewrite io_bind_run.
  destruct (json_getitem_str jd "data") as [md|]; [|done].
  rewrite io_bind_run.
  destruct (json_len md); [|done].
  rewrite io_bind_run. by apply view_loop_agree.
Qed.

Lemma scene_loop_agree convert' fs' scenes acc w :
  (∀ detections src dst,
     convert' detections src dst true
     = convert_bottom_up_kps_paf detections src dst true) →
  (∀ scene_idx, scene_idx ∈ scenes →
     fs' !! scene_file (meta_path (self_ w)) scene_idx
     = fs !! scene_file (meta_path (self_ w)) scene_idx) →
  Dataset.scene_loop convert' fs' json_load scenes acc w
  = scene_loop scenes acc w.
Proof.
  intros Hagree. revert acc w.
  induction scenes as [|i scenes IH]; intros acc w Hfiles; simpl; [done|].
  rewrite !io_bind_run, load_scene_agree
    by (done || apply Hfiles; by left).
  destruct (load_scene i w) as [[mview|e] w1] eqn:Hscene; [|done].
  apply IH. intros scene_idx Hin.
  apply load_scene_frame in Hscene as [Hself _].
  assert (meta_path (self_ w1) = meta_path (self_ w)) as ->
    by (by injection Hself).
  apply Hfiles. by right.
Qed.

(** X18. [load_perception_2d] calls the converter with [approximate=True]
    only: what the converter would do with [approximate=False] changes
    neither the result nor the final state. *)
Theorem load_perception_2d_converter_approximate convert' w :
  (∀ detections src dst,
     convert' detections src dst true
     = convert_bottom_up_kps_paf detections src dst true) →
  Dataset.load_perception_2d convert' fs json_load w = load_perception_2d w.
Proof.
  intros Hagree. rewrite load_perception_2d_run.
  unfold Dataset.load_perception_2d, get, modify.
  rewrite !io_bind_run, scene_loop_agree by done.
  by destruct (scene_loop _ _ w) as [[p|e] w1].
Qed.

(** X19. [load_perception_2d] reads no file other than
    meta_path/scene_i/kps2d_paf.json for i below [n_scene]: on two file
    systems that agree on these files it does the same. *)
Theorem load_perception_2d_reads_scene_files fs' w :
  (∀ scene_idx, (scene_idx < n_scene (self_ w))%nat →
     fs' !! scene_file (meta_path (self_ w)) scene_idx
     = fs !! scene_file (meta_path (self_ w)) scene_idx) →
  Dataset.load_perception_2d convert_bottom_up_kps_paf fs' json_load w
  = load_perception_2d w.
Proof.
  intros Hfiles. rewrite load_perception_2d_run.
  unfold Dataset.load_perception_2d, get, modify.
  rewrite !io_bind_run, scene_loop_agree.
  - by destruct (scene_loop _ _ w) as [[p|e] w1].
  - done.
  - intros scene_idx [_ Hlt]%elem_of_seq. apply Hfiles. simpl in Hlt. lia.
Qed.

(** X20. For a view index at or beyond the number of cameras of the
    scene, as when a scene file lists more views than the scene has
    cameras, the body of the view loop raises [IndexError] before the
    converter is called: the state is left as it was. *)
Theorem load_view_without_camera scene_idx src_convention multi_detections
    view_idx cams w :
  getitem (fisheye_params (self_ w)) (Z.of_nat scene_idx) = Ok cams →
  (length cams ≤ view_idx)%nat →
  load_view scene_idx src_convention multi_detections view_idx w
  = (Raise IndexError, w).
Proof.
  intros Hcams Hview. unfold Dataset.load_view, get, lift.
  rewrite !io_bind_run, Hcams. simpl.
  rewrite getitem_nat.
  by rewrite (proj2 (lookup_ge_None cams view_idx)) by lia.
Qed.

(** ** The resize step on arrays that are shared or of another shape *)





(** X22. A non-empty joint array that is not two-dimensional with at
    least two columns makes the resize of that joint raise [IndexError]:
    with one dimension, or two and no column, the store is as it was; with
    a single column, column 0 has already been scaled in place. *)
Theorem resize_joint_narrow_array (img_size : Z * Z) joint
    (h : gmap nat ndarray) a :
  h !! joint = Some a →
  (0 < nd_len a)%nat →
  (∀ ncols rows, a = Arr2 ncols rows → (ncols < 2)%nat) →
  resize_joint img_size joint h
  = (Raise IndexError,
     match a with
     | Arr2 (S O) rows =>
         <[joint := Arr2 1 (alter (λ x, (x * float_of_Z (img_size.1 - 1))%float)
                                  0%nat <$> rows)]> h
     | _ => h
     end).
Proof.
  intros Hj Hpos Hnarrow.
  assert (resize_joint img_size joint h
          = (a0 ← lift (scale_column 0 (float_of_Z (img_size.1 - 1)) a);
             _ ← modify <[joint := a0]>;
             a1 ← lift (scale_column 1 (float_of_Z (img_size.2 - 1)) a0);
             modify <[joint := a1]>) h) as ->.
  { unfold resize_joint. rewrite io_bind_run. unfold get at 1.
    rewrite io_bind_run. unfold lift at 1. rewrite Hj.
    by destruct (Nat.ltb_spec 0 (nd_len a)) as [_|?]; [|lia]. }
  destruct a as [v|[|[|ncols]] rows]; [done | done | done |].
  specialize (Hnarrow _ _ eq_refl). lia.
Qed.

(** X23. When the converter returned fewer records than the view has
    frames, the resize step scales the joint arrays of all the records
    there are and then raises [IndexError]. *)
Theorem resize_fewer_records (img_size : Z * Z) n_frame convert_detections
    (h : gmap nat ndarray) :
  (length convert_detections < n_frame)%nat →
  resize img_size n_frame convert_detections h
  = match resize img_size (length convert_detections) convert_detections h
    with
    | (Ok _, h') => (Raise IndexError, h')
    | (Raise e, h') => (Raise e, h')
    end.
Proof.
  intros Hlt. unfold resize.
  replace n_frame
    with (length convert_detections
          + S (n_frame - S (length convert_detections)))%nat at 1 by lia.
  rewrite seq_app, for_each_app, io_bind_run.
  destruct (for_each (seq 0 (length convert_detections)) _ h)
    as [[[]|e] h']; [|done].
  simpl. rewrite io_bind_run. unfold lift at 1. rewrite io_bind_run.
  rewrite getitem_nat.
  by rewrite (proj2 (lookup_ge_None convert_detections _)) by lia.
Qed.

(** X24. The resize step visits the records of the first [n_frame] frames
    only: records that the converter returned beyond them are not
    touched. *)
Theorem resize_ignores_extra_records (img_size : Z * Z) n_frame
    convert_detections (h : gmap nat ndarray) :
  resize img_size n_frame convert_detections h
  = resize img_size n_frame (take n_frame convert_detections) h.
Proof.
  destruct (Nat.le_gt_cases n_frame (length convert_detections)) as [Hle|Hgt].
  - rewrite !resize_flat by (rewrite ?length_take; lia).
    unfold joint_refs. by rewrite take_take, Nat.min_id.
  - by rewrite take_ge by lia.
Qed.

End DatasetFacts.

(** ** The dataset on the fixture *)

Lemma fixture_getitem_last :
  Dataset.__getitem__ Fixture.dataset_len Fixture.index_mapping
    Fixture.pipeline Fixture.loaded_dataset 1
  = Ok Fixture.last_item.
Proof. vm_compute. reflexivity. Qed.

Lemma fixture_getitem_first :
  Dataset.__getitem__ Fixture.dataset_len Fixture.index_mapping
    Fixture.pipeline Fixture.loaded_dataset 0
  = Ok Fixture.first_item.
Proof. vm_compute. reflexivity. Qed.

Lemma end_of_clip_iff_last_and_not_shuffled_witness :
  1 < Fixture.dataset_len Fixture.loaded_dataset
  ∧ ∃ scene_idx frame_idx last,
      Fixture.index_mapping Fixture.loaded_dataset 1
      = Ok (scene_idx, frame_idx, last)
      ∧ (Dataset.end_of_clip Fixture.last_item = true
         ↔ last = true ∧ Dataset.shuffled Fixture.loaded_dataset = false)
      ∧ (Dataset.shuffled Fixture.loaded_dataset = true
         → Dataset.end_of_clip Fixture.last_item = false).
Proof.
  exact (end_of_clip_iff_last_and_not_shuffled Fixture.dataset_len
           Fixture.index_mapping Fixture.pipeline Fixture.loaded_dataset 1
           Fixture.last_item fixture_getitem_last).
Defined.




Example fixture_kw_data :
  Dataset.kw_data Fixture.last_item
  = [ {| Dataset.joints := [3; 4]%nat; Dataset.pafs := [5%nat] |};
      {| Dataset.joints := [9; 10]%nat; Dataset.pafs := [11%nat] |} ]
  ∧ Dataset.__getitem__ Fixture.dataset_len Fixture.index_mapping
      Fixture.pipeline Fixture.loaded_dataset 2 = Raise StopIteration.
Proof. split; reflexivity. Qed.

Lemma fixture_resize_small_heap :
  ∃ h',
    Dataset.resize (641, 481) 1 Fixture.small_detections Fixture.small_heap
    = (Ok tt, h')
    ∧ h' !! 0%nat = Some (Dataset.Arr2 3 [ [320; 120; 1] ]%float)
    ∧ h' !! 1%nat = Some (Dataset.Arr1 [])
    ∧ h' !! 2%nat = Some (Dataset.Arr2 1 [ [0.75] ]%float).
Proof.
  destruct (resize_scales_xy_only (641, 481) 1 Fixture.small_detections
              Fixture.small_heap) as (h' & Hrun & Hin & Hout & Hpaf & _).
  - simpl. lia.
  - intros r [->|[->|[]%elem_of_nil]%elem_of_cons]%elem_of_cons.
    + eexists. split; [reflexivity|]. right. eexists _, _. split; [done|lia].
    + eexists. split; [reflexivity|]. by left.
  - intros [|[|i]] [|[|j]] r a; simpl; try done; congruence.
  - intros d paf ->%list_elem_of_singleton ->%list_elem_of_singleton.
    vm_compute. set_solver.
  - exists h'. split; [exact Hrun|]. split; [|split].
    + apply (Hin 0%nat (Dataset.Arr2 3 [ [0.5; 0.25; 1] ]%float));
        [by left | reflexivity].
    + apply (Hin 1%nat (Dataset.Arr1 []));
        [by right; left | reflexivity].
    + rewrite (Hpaf {| Dataset.joints := [0; 1]%nat;
                       Dataset.pafs := [2%nat] |} 2%nat);
        [reflexivity | by apply list_elem_of_singleton
        | by apply list_elem_of_singleton].
Defined.

Example fixture_load_perception_2d :
  Dataset.opened Fixture.loaded_world = ["meta/scene_0/kps2d_paf.json"]
  ∧ Fixture.loaded_world.(Dataset.heap) !! 0%nat
    = Some (Dataset.Arr2 3 [ [320; 120; 1] ]%float)
  ∧ Fixture.loaded_world.(Dataset.heap) !! 2%nat
    = Some (Dataset.Arr2 1 [ [0.75] ]%float).
Proof. vm_compute. done. Qed.

(** With two scenes announced and the file of the second one missing, the
    call raises after the first scene and leaves [percep_keypoints2d]
    unset. *)
Example fixture_missing_scene_file :
  ∃ w',
    Dataset.load_perception_2d Fixture.converter Fixture.files Fixture.parse
      (Fixture.fresh_world 2) = (Raise FileNotFoundError, w')
    ∧ Dataset.percep_keypoints2d (Dataset.self_ w') = None
    ∧ Dataset.opened w' = ["meta/scene_0/kps2d_paf.json"].
Proof. eexists. split; [vm_compute; reflexivity|]. by split. Qed.

Example scene_file_default_meta_path :
  Dataset.scene_file "xrmocap_meta" 12 = "xrmocap_meta/scene_12/kps2d_paf.json".
Proof. reflexivity. Qed.

Example fixture_infer_frames_batches :
  Mediapipe.infer_frames Fixture.cvtColor Fixture.imread Fixture.keypoint_num
    Fixture.estimator ["a.png"; "b.png"] Fixture.bboxes false false (Some 1)
  = Ok Fixture.inferred
  ∧ Mediapipe.infer_frames Fixture.cvtColor Fixture.imread
      Fixture.keypoint_num Fixture.estimator ["a.png"; "b.png"]
      Fixture.bboxes false false None
    = Ok Fixture.inferred.
Proof. split; vm_compute; reflexivity. Qed.

Lemma fixture_pose_model_total :
  Mediapipe.pose_model_total Fixture.cvtColor Fixture.estimator 33.
Proof.
  intros img Hw Hh. unfold Fixture.cvtColor, Fixture.estimator. simpl.
  destruct (Nat.eqb_spec (Mediapipe.im_width img) 0); [lia|].
  destruct (Nat.eqb_spec (Mediapipe.im_height img) 0); [lia|]. simpl.
  eexists. unfold Fixture.pose.
  destruct (_ <? _)%nat; eexists; (split; [done|]); (split; [done|]);
    [done | by intros lms [= <-]].
Qed.

(** ** The estimator's further properties on the fixture *)

Lemma infer_frames_chunked_witness :
  Mediapipe.infer_frames Fixture.cvtColor Fixture.imread Fixture.keypoint_num
    Fixture.estimator ["a.png"; "b.png"] Fixture.bboxes false false (Some 1)
  = Mediapipe.infer_array Fixture.cvtColor Fixture.keypoint_num
      Fixture.estimator (Fixture.imread <$> ["a.png"; "b.png"])
      Fixture.bboxes false false.
Proof. apply infer_frames_chunked. lia. Defined.

Lemma infer_frames_default_witness :
  Mediapipe.infer_frames Fixture.cvtColor Fixture.imread Fixture.keypoint_num
    Fixture.estimator ["a.png"; "b.png"] Fixture.bboxes false false None
  = Mediapipe.infer_array Fixture.cvtColor Fixture.keypoint_num
      Fixture.estimator (Fixture.imread <$> ["a.png"; "b.png"])
      Fixture.bboxes false false.
Proof. apply infer_frames_default. discriminate. Defined.

Lemma chunks_partition_witness :
  concat ((λ start, slice [10; 11; 12; 13; 14] start
                      (Z.min (Z.of_nat 5) (start + 2)))
          <$> [0; 2; 4])
  = [10; 11; 12; 13; 14].
Proof.
  apply (chunks_partition [10; 11; 12; 13; 14] 2 [0; 2; 4]);
    [lia | reflexivity].
Defined.

Lemma infer_frames_nonpositive_batch_witness :
  Mediapipe.infer_frames Fixture.cvtColor Fixture.imread Fixture.keypoint_num
    Fixture.estimator ["a.png"; "b.png"] Fixture.bboxes false false
    (Some (-1))
  = Ok ([], None, []).
Proof.
  apply (infer_frames_nonpositive_batch Fixture.cvtColor Fixture.imread
           Fixture.keypoint_num Fixture.estimator ["a.png"; "b.png"]
           Fixture.bboxes false false (-1)).
  lia.
Defined.

Lemma infer_array_returns_witness :
  ∃ ret_kps ret_bbox,
    Mediapipe.infer_array Fixture.cvtColor Fixture.keypoint_num
      Fixture.estimator Fixture.frames Fixture.bboxes false false
    = Ok (ret_kps, None, ret_bbox).
Proof.
  apply (infer_array_returns Fixture.cvtColor Fixture.keypoint_num
           Fixture.estimator [Fixture.image; Fixture.image]).
  - vm_compute. lia.
  - apply fixture_pose_model_total.
  - repeat constructor;
      (eexists _, _, _, _, _, _, _, _, _;
       split; [reflexivity|]; repeat (split; [reflexivity|]);
       split; vm_compute; repeat constructor).
Defined.

Lemma infer_array_detected_rows_witness :
  ∃ fk fb,
    Fixture.inferred.1.1 !! 0%nat = Some fk
    ∧ Fixture.inferred.2 !! 0%nat = Some fb
    ∧ fb !! 0%nat = Some [1; 0; 5; 4; 0.75]%float
    ∧ fk !! 0%nat = Some (replicate 33 [3; 1; 1]%float).
Proof.
  destruct (infer_array_detected_rows Fixture.cvtColor
              Fixture.keypoint_num Fixture.estimator Fixture.frames
              Fixture.bboxes false false _ _ _ fixture_infer_array
              0%nat _ (le_S _ _ (le_n _)) eq_refl eq_refl)
    as (img_arr & bif & pose_results & fk & fb
        & Himg & Hsel & Hpose & Hk & Hb & Hrows).
  injection Himg as <-. vm_compute in Hsel. injection Hsel as <-.
  vm_compute in Hpose. injection Hpose as <-.
  destruct (Hrows 0%nat _ eq_refl) as [Hb0 [[_ Hk0]|(kp & Hkp & _)]];
    [|discriminate Hkp].
  exists fk, fb. exact (conj Hk (conj Hb (conj Hb0 Hk0))).
Defined.

Lemma infer_array_bbox_rows_witness :
  ∃ detected,
    detected `sublist_of` [ [1; 0; 5; 4; 0.75]; [0; 1; 6; 2; 0.75];
                            [0; 0; 6; 4; 0] ]%float
    ∧ Forall (λ bbox, ∃ score, bbox !! 4%nat = Some score
                        ∧ PrimFloat.ltb 0 score = true
                        ∧ PrimFloat.ltb 0.5 score = true) detected
    ∧ Fixture.inferred.2 !! 0%nat
      = Some (detected
              ++ replicate (3 - length detected)
                   [0; 0; 0; 0; 0]%float).
Proof.
  exact (infer_array_bbox_rows Fixture.cvtColor Fixture.keypoint_num
           Fixture.estimator Fixture.frames Fixture.bboxes false false
           _ _ _ fixture_infer_array 0%nat _ (le_S _ _ (le_n _))
           eq_refl eq_refl).
Defined.

Lemma fixture_infer_array_unread :
  Mediapipe.infer_array Fixture.cvtColor Fixture.keypoint_num
    Fixture.estimator [None] [ [ [0; 0; 6; 4; 0.25] ] ]%float false false
  = Ok ([ [ replicate 33 [0; 0; 0] ] ], None, [ [ [0; 0; 0; 0; 0] ] ])%float.
Proof. vm_compute. reflexivity. Qed.

Lemma infer_array_unread_frame_witness :
  Forall (λ bbox, ∀ score, bbox !! 4%nat = Some score →
                    PrimFloat.ltb 0 score = true →
                    PrimFloat.ltb 0.5 score = false)
         [ [0; 0; 6; 4; 0.25] ]%float
  ∧ [ [ replicate 33 [0; 0; 0]%float ] ] !! 0%nat
    = Some [ replicate 33 [0; 0; 0]%float ]
  ∧ [ [ [0; 0; 0; 0; 0]%float ] ] !! 0%nat = Some [ [0; 0; 0; 0; 0]%float ].
Proof.
  exact (infer_array_unread_frame Fixture.cvtColor Fixture.keypoint_num
           Fixture.estimator [None] [ [ [0; 0; 6; 4; 0.25] ] ]%float
           false false _ _ _ fixture_infer_array_unread 0%nat _
           eq_refl eq_refl).
Defined.

Lemma infer_array_needs_bboxes_witness :
  (length Fixture.frames ≤ length Fixture.bboxes)%nat
  ∧ Forall (Forall (λ bbox : list float, (5 ≤ length bbox)%nat))
           (take (length Fixture.frames) Fixture.bboxes).
Proof.
  exact (infer_array_needs_bboxes Fixture.cvtColor Fixture.keypoint_num
           Fixture.estimator Fixture.frames Fixture.bboxes false false
           _ _ _ fixture_infer_array).
Defined.

Lemma infer_single_img_body_inside_witness :
  ∃ rgb result_mp,
    Fixture.cvtColor (Mediapipe.crop Fixture.image 0 4 1 5) = Ok rgb
    ∧ Fixture.pose rgb = Ok result_mp
    ∧ Some {| Mediapipe.pd_bbox := [1; 0; 5; 4; 0.75]%float;
              Mediapipe.pd_keypoints := replicate 33 [3; 1; 1]%float |}
      = (λ pose_landmarks,
           {| Mediapipe.pd_bbox := [1; 0; 5; 4; 0.75]%float;
              Mediapipe.pd_keypoints :=
                (λ landmark,
                   [ (Mediapipe.lm_x landmark
                      * float_of_nat (Z.to_nat (5 - 1)) + 1)%float;
                     (Mediapipe.lm_y landmark
                      * float_of_nat (Z.to_nat (4 - 0)) + 0)%float;
                     Mediapipe.lm_visibility landmark ])
                <$> pose_landmarks |})
        <$> result_mp.
Proof.
  apply (infer_single_img_body_inside Fixture.cvtColor Fixture.estimator
           Fixture.image
           {| Mediapipe.bd_bbox := [1; 0; 5; 4; 0.75]%float;
              Mediapipe.bd_id := 0 |} 1 0 5 4 0.75 0 4 1 5);
    [reflexivity | reflexivity | reflexivity | reflexivity | reflexivity
    | reflexivity | lia | simpl; lia | lia
    | unfold Mediapipe.im_height; simpl; lia
    | vm_compute; reflexivity].
Defined.


(** ** The dataset's further properties on the fixture *)

Lemma getitem_leading_dimensions_witness :
  ∃ scene_idx frame_idx last img_paths cams,
    Fixture.index_mapping Fixture.loaded_dataset 0
    = Ok (scene_idx, frame_idx, last)
    ∧ getitem (Dataset.image_list Fixture.loaded_dataset) scene_idx
      ≫= (λ scene, getitem scene frame_idx) = Ok img_paths
    ∧ getitem (Dataset.fisheye_params Fixture.loaded_dataset) scene_idx
      = Ok cams
    ∧ (0 < length img_paths)%nat ∧ (0 < length cams)%nat
    ∧ head (Dataset.shape (Dataset.mview_img_tensor Fixture.first_item))
      = Some (length img_paths)
    ∧ head (Dataset.shape (Dataset.k_tensor Fixture.first_item))
      = Some (length cams)
    ∧ head (Dataset.shape (Dataset.r_tensor Fixture.first_item))
      = Some (length cams)
    ∧ head (Dataset.shape (Dataset.t_tensor Fixture.first_item))
      = Some (length cams).
Proof.
  exact (getitem_leading_dimensions Fixture.dataset_len
           Fixture.index_mapping Fixture.pipeline Fixture.loaded_dataset 0
           Fixture.first_item fixture_getitem_first).
Defined.

Lemma getitem_needs_perception_witness :
  ∃ scene_idx frame_idx last img_paths p views,
    Fixture.index_mapping Fixture.loaded_dataset 1
    = Ok (scene_idx, frame_idx, last)
    ∧ getitem (Dataset.image_list Fixture.loaded_dataset) scene_idx
      ≫= (λ scene, getitem scene frame_idx) = Ok img_paths
    ∧ Dataset.percep_keypoints2d Fixture.loaded_dataset = Some p
    ∧ getitem p scene_idx = Ok views
    ∧ (length img_paths ≤ length views)%nat.
Proof.
  exact (getitem_needs_perception Fixture.dataset_len
           Fixture.index_mapping Fixture.pipeline Fixture.loaded_dataset 1
           Fixture.last_item fixture_getitem_last).
Defined.

Lemma fixture_load_perception_2d_returns :
  Dataset.load_perception_2d Fixture.converter Fixture.files Fixture.parse
    (Fixture.fresh_world 1) = (Ok tt, Fixture.loaded_world).
Proof. vm_compute. reflexivity. Qed.

Lemma load_perception_2d_n_views_witness :
  ∃ p, Dataset.percep_keypoints2d (Dataset.self_ Fixture.loaded_world)
       = Some p
       ∧ Dataset.n_views (Dataset.self_ Fixture.loaded_world)
         = length <$> last p.
Proof.
  exact (load_perception_2d_n_views Fixture.converter Fixture.files
           Fixture.parse (Fixture.fresh_world 1) Fixture.loaded_world
           fixture_load_perception_2d_returns).
Defined.

Lemma load_perception_2d_keeps_attributes_witness :
  Dataset.data_root (Dataset.self_ Fixture.loaded_world) = "data"
  ∧ Dataset.meta_path (Dataset.self_ Fixture.loaded_world) = "meta"
  ∧ Dataset.shuffled (Dataset.self_ Fixture.loaded_world) = false
  ∧ Dataset.kps2d_convention (Dataset.self_ Fixture.loaded_world)
    = "fourdag19"
  ∧ Dataset.cam_k_dim (Dataset.self_ Fixture.loaded_world) = 3
  ∧ Dataset.n_scene (Dataset.self_ Fixture.loaded_world) = 1%nat
  ∧ Dataset.image_list (Dataset.self_ Fixture.loaded_world)
    = Dataset.image_list (Fixture.fresh_dataset 1)
  ∧ Dataset.fisheye_params (Dataset.self_ Fixture.loaded_world)
    = [ [Fixture.camera; Fixture.camera] ]
  ∧ Dataset.gt3d (Dataset.self_ Fixture.loaded_world)
    = Dataset.gt3d (Fixture.fresh_dataset 1).
Proof.
  exact (load_perception_2d_keeps_attributes Fixture.converter Fixture.files
           Fixture.parse (Fixture.fresh_world 1) (Ok tt) Fixture.loaded_world
           fixture_load_perception_2d_returns).
Defined.

Lemma load_perception_2d_converter_approximate_witness :
  Dataset.load_perception_2d
    (λ detections src dst (approximate : bool),
       if approximate then Fixture.converter detections src dst true
       else lift (Raise ValueError))
    Fixture.files Fixture.parse (Fixture.fresh_world 1)
  = Dataset.load_perception_2d Fixture.converter Fixture.files Fixture.parse
      (Fixture.fresh_world 1).
Proof.
  apply (load_perception_2d_converter_approximate Fixture.converter
           Fixture.files Fixture.parse).
  intros detections src dst. reflexivity.
Defined.

Lemma load_perception_2d_reads_scene_files_witness :
  Dataset.load_perception_2d Fixture.converter
    (<["meta/scene_1/kps2d_paf.json" := "scene 1"]> Fixture.files)
    Fixture.parse (Fixture.fresh_world 1)
  = Dataset.load_perception_2d Fixture.converter Fixture.files Fixture.parse
      (Fixture.fresh_world 1).
Proof.
  apply (load_perception_2d_reads_scene_files Fixture.converter
           Fixture.files Fixture.parse).
  intros [|scene_idx] Hlt; [vm_compute; reflexivity | simpl in Hlt; lia].
Defined.

Lemma load_view_without_camera_witness :
  Dataset.load_view Fixture.converter 0 (Dataset.JStr "openpose_25")
    (Dataset.JArr []) 2 (Fixture.fresh_world 1)
  = (Raise IndexError, Fixture.fresh_world 1).
Proof.
  apply (load_view_without_camera Fixture.converter 0
           (Dataset.JStr "openpose_25") (Dataset.JArr []) 2
           [Fixture.camera; Fixture.camera] (Fixture.fresh_world 1));
    [reflexivity | simpl; lia].
Defined.


Lemma resize_joint_narrow_array_witness :
  Dataset.resize_joint (641, 481) 2 Fixture.small_heap
  = (Raise IndexError,
     <[2%nat := Dataset.Arr2 1
                  (alter (λ x, (x * float_of_Z (641 - 1))%float) 0%nat
                   <$> [ [0.75] ]%float)]> Fixture.small_heap).
Proof.
  apply (resize_joint_narrow_array (641, 481) 2 Fixture.small_heap
           (Dataset.Arr2 1 [ [0.75] ]%float));
    [reflexivity | simpl; lia |].
  intros ncols rows [= <- _]. lia.
Defined.

Lemma resize_fewer_records_witness :
  Dataset.resize (641, 481) 2 Fixture.small_detections Fixture.small_heap
  = match Dataset.resize (641, 481) 1 Fixture.small_detections
            Fixture.small_heap with
    | (Ok _, h') => (Raise IndexError, h')
    | (Raise e, h') => (Raise e, h')
    end.
Proof.
  apply (resize_fewer_records (641, 481) 2 Fixture.small_detections
           Fixture.small_heap).
  simpl. lia.
Defined.

(** ** The resize step inside the view loop, on the fixture *)


